(** * StudentIntroCoordinatorReference: account index cache and pagination

    Shallow embedding of [scripts/serialize/StudentIntroCoordinatorReference]
    (the static [accounts] cache, [prefetchAccounts] and [fetchPage]) together
    with the pieces of the JavaScript run time it relies on
    ([Array.prototype.slice], [Array.prototype.sort], [Buffer.readUInt32LE],
    [Array.prototype.reduce]).

    Conventions.
    - A [Buffer] is a [list byte]; a JavaScript [number] that holds an index,
      a length or a page number is a [Z] (the model covers integer-valued
      numbers whose products stay exact).
    - A rejected promise / thrown exception is the [Throw] branch of [Result].
    - The class keeps one piece of static state, [accounts]; the model threads
      it explicitly and records every RPC request in a call log, so that
      "no network round trip" and "a rebuild was triggered" are observable. *)

From Stdlib Require Import Strings.String Strings.Byte.
From Stdlib Require Import ZArith List Bool Lia.
From Stdlib Require Import Sorting.Sorted Sorting.Permutation.
Import ListNotations.

Local Open Scope Z_scope.

(* ------------------------------------------------------------------ *)
(** ** JavaScript run-time pieces *)

Module Js.

(** Thrown values: a failed RPC request, or the [RangeError] of an
    out-of-bounds [Buffer] read. *)
Inductive Exn : Type :=
| RpcFailure (msg : string)
| RangeError.

Inductive Result (A : Type) : Type :=
| Ok (a : A)
| Throw (e : Exn).
Arguments Ok {A} a.
Arguments Throw {A} e.

Definition bindR {A B} (m : Result A) (k : A -> Result B) : Result B :=
  match m with
  | Ok a => k a
  | Throw e => Throw e
  end.

(** [ToIntegerOrInfinity] followed by the relative-index clamp shared by
    [Array.prototype.slice] and [Buffer.prototype.slice]: a negative index
    counts from the end. *)
Definition relIndex (len i : Z) : Z :=
  if i <? 0 then Z.max (len + i) 0 else Z.min i len.

(** [arr.slice(start, end)]. *)
Definition slice {A} (arr : list A) (start end_ : Z) : list A :=
  let len := Z.of_nat (length arr) in
  let k := relIndex len start in
  let final := relIndex len end_ in
  firstn (Z.to_nat (final - k)) (skipn (Z.to_nat k) arr).

(** [buf.readUInt32LE(offset)]: throws when fewer than four bytes are
    available at [offset]. *)
Definition readUInt32LE (buf : list byte) (offset : nat) : Result Z :=
  match skipn offset buf with
  | b0 :: b1 :: b2 :: b3 :: _ =>
      Ok (Z.of_N (Byte.to_N b0)
          + 256 * Z.of_N (Byte.to_N b1)
          + 65536 * Z.of_N (Byte.to_N b2)
          + 16777216 * Z.of_N (Byte.to_N b3))
  | _ => Throw RangeError
  end.

Section Sort.
Context {A : Type}.
Variable compareFn : A -> A -> Result Z.

(** [Array.prototype.sort(compareFn)] is stable; with a consistent
    comparator its result is the stable sorted arrangement, which is what
    insertion from the right computes.  An exception raised by the
    comparator aborts the sort.  Arrays of fewer than two elements are
    returned without any call to the comparator. *)
Fixpoint insert (x : A) (sorted : list A) : Result (list A) :=
  match sorted with
  | [] => Ok [x]
  | h :: t =>
      bindR (compareFn x h) (fun c =>
      if c <=? 0 then Ok (x :: h :: t)
      else bindR (insert x t) (fun t' => Ok (h :: t')))
  end.

Fixpoint sort (arr : list A) : Result (list A) :=
  match arr with
  | [] => Ok []
  | x :: rest => bindR (sort rest) (insert x)
  end.
End Sort.

End Js.

Import Js.

Notation "x <~ m ;; k" := (bindR m (fun x => k))
  (at level 61, m at next level, right associativity).

(* ------------------------------------------------------------------ *)
(** ** The RPC boundary ([web3.Connection]) *)

Definition PublicKey := string.

(** [{ memcmp: { offset, bytes } }].  [bs58.encode] is the wire encoding of
    the comparison bytes; the filter is kept as the bytes it denotes. *)
Record Memcmp : Type := { offset : Z; bytes : list byte }.

Record GetProgramAccountsConfig : Type := {
  dataSlice : Z * Z;          (* offset, length *)
  filters : list Memcmp
}.

(** One element of the [getProgramAccounts] answer: [{ pubkey, account }],
    of which only [account.data] is read. *)
Record ProgramAccount : Type := { pubkey : PublicKey; data : list byte }.

(** [AccountInfo] as returned by [getMultipleAccountsInfo]. *)
Record AccountInfo : Type := { info_data : list byte }.

Record Connection : Type := {
  getProgramAccounts :
    string -> GetProgramAccountsConfig -> Result (list ProgramAccount);
  getMultipleAccountsInfo :
    list PublicKey -> Result (list (option AccountInfo))
}.

Inductive Event : Type :=
| CallGetProgramAccounts (programId : string) (config : GetProgramAccountsConfig)
| CallGetMultipleAccountsInfo (keys : list PublicKey).

(* ------------------------------------------------------------------ *)
(** ** The coordinator *)

Definition STUDENT_INTRO_PROGRAM_ID : string :=
  "HdE95RSVsdb315jfJtaykXhXY478h53X6okDupVfY9yf".

(** The static state of the class. *)
Record Coordinator : Type := { accounts : list PublicKey }.

(** Computations over the static state that log RPC requests and may throw.
    State written before a throw stays written. *)
Definition M (A : Type) : Type :=
  Coordinator -> Coordinator * list Event * Result A.

Definition ret {A} (a : A) : M A := fun st => (st, [], Ok a).

Definition bind {A B} (m : M A) (k : A -> M B) : M B :=
  fun st =>
    match m st with
    | (st1, log1, Ok a) =>
        match k a st1 with
        | (st2, log2, r) => (st2, log1 ++ log2, r)
        end
    | (st1, log1, Throw e) => (st1, log1, Throw e)
    end.

Notation "x <- m ;; k" := (bind m (fun x => k))
  (at level 61, m at next level, right associativity).

Definition getAccounts : M (list PublicKey) :=
  fun st => (st, [], Ok (accounts st)).

Definition setAccounts (keys : list PublicKey) : M unit :=
  fun _ => ({| accounts := keys |}, [], Ok tt).

Definition liftR {A} (r : Result A) : M A := fun st => (st, [], r).

Definition rpcGetProgramAccounts (connection : Connection) (programId : string)
    (config : GetProgramAccountsConfig) : M (list ProgramAccount) :=
  fun st => (st, [CallGetProgramAccounts programId config],
             getProgramAccounts connection programId config).

Definition rpcGetMultipleAccountsInfo (connection : Connection)
    (keys : list PublicKey) : M (list (option AccountInfo)) :=
  fun st => (st, [CallGetMultipleAccountsInfo keys],
             getMultipleAccountsInfo connection keys).

(** The manual byte comparison loop of the sort callback:
    [for (let i = 0; i < len; i++) ...] followed by
    [return dataA.length - dataB.length]; [todo] counts the iterations left. *)
Fixpoint compareLoop (dataA dataB : list byte) (i todo : nat) : Z :=
  match todo with
  | O => Z.of_nat (length dataA) - Z.of_nat (length dataB)
  | S todo' =>
      let a := Byte.to_N (nth i dataA x00) in
      let b := Byte.to_N (nth i dataB x00) in
      if (a <? b)%N then -1
      else if (b <? a)%N then 1
      else compareLoop dataA dataB (S i) todo'
  end.

Definition compareData (dataA dataB : list byte) : Z :=
  let len := Nat.min (length dataA) (length dataB) in
  compareLoop dataA dataB 0 len.

(** The callback handed to [accounts.sort]. *)
Definition comparator (a b : ProgramAccount) : Result Z :=
  lengthA <~ readUInt32LE (data a) 0 ;;
  lengthB <~ readUInt32LE (data b) 0 ;;
  let dataA := slice (data a) 4 (4 + lengthA) in
  let dataB := slice (data b) 4 (4 + lengthB) in
  Ok (compareData dataA dataB).

(** The request options built by [prefetchAccounts]. *)
Definition prefetchConfig (search : string) : GetProgramAccountsConfig :=
  {| dataSlice := (1, 12);
     filters :=
       if String.eqb search "" then []
       else [ {| offset := 5; bytes := list_byte_of_string search |} ] |}.

Definition prefetchAccounts (connection : Connection) (search : string) : M unit :=
  accts <- rpcGetProgramAccounts connection STUDENT_INTRO_PROGRAM_ID
             (prefetchConfig search) ;;
  sorted <- liftR (sort comparator accts) ;;
  setAccounts (map pubkey sorted).

(** The decoded record, [new StudentIntroReference(name, message)]. *)
Record StudentIntroReference : Type := { name : string; message : string }.

Section FetchPage.

(** [StudentIntroReference.deserialize(buffer?)]: [None] stands for the
    [null] it returns on an absent or undecodable buffer. *)
Variable deserialize : option (list byte) -> option StudentIntroReference.

(** The [reduce] callback. *)
Definition collect (accum : list StudentIntroReference)
    (account : option AccountInfo) : list StudentIntroReference :=
  match deserialize (option_map info_data account) with
  | None => accum
  | Some studentIntro => accum ++ [studentIntro]
  end.

(** [this.accounts.slice((page - 1) * perPage, page * perPage)]. *)
Definition pageSlice (index : list PublicKey) (page perPage : Z) : list PublicKey :=
  slice index ((page - 1) * perPage) (page * perPage).

Definition fetchPage (connection : Connection) (page perPage : Z)
    (search : string) (reload : bool) : M (list StudentIntroReference) :=
  cached <- getAccounts ;;
  _ <- (if (Nat.eqb (length cached) 0 || reload)%bool
        then prefetchAccounts connection search
        else ret tt) ;;
  current <- getAccounts ;;
  let paginatedPublicKeys := pageSlice current page perPage in
  if Nat.eqb (length paginatedPublicKeys) 0 then ret []
  else
    infos <- rpcGetMultipleAccountsInfo connection paginatedPublicKeys ;;
    ret (fold_left collect infos []).

End FetchPage.

(* ------------------------------------------------------------------ *)
(** ** Observing one run *)

Definition Outcome (A : Type) : Type := (Coordinator * list Event * Result A)%type.

Definition stateOf {A} (o : Outcome A) : Coordinator := fst (fst o).
Definition logOf {A} (o : Outcome A) : list Event := snd (fst o).
Definition resultOf {A} (o : Outcome A) : Result A := snd o.

Definition isDiscovery (ev : Event) : bool :=
  match ev with CallGetProgramAccounts _ _ => true | _ => false end.

Definition isBatchFetch (ev : Event) : bool :=
  match ev with CallGetMultipleAccountsInfo _ => true | _ => false end.

(** A rebuild of the index was started during the run. *)
Definition rebuildTriggered (log : list Event) : bool := existsb isDiscovery log.

(** The batch-fetch round trip was made during the run. *)
Definition batchFetched (log : list Event) : bool := existsb isBatchFetch log.

(** The request a rebuild with filter [search] sends. *)
Definition discoveryCall (search : string) : Event :=
  CallGetProgramAccounts STUDENT_INTRO_PROGRAM_ID (prefetchConfig search).

(** The condition under which [fetchPage] rebuilds the index. *)
Definition needsRebuild (st : Coordinator) (reload : bool) : bool :=
  (Nat.eqb (length (accounts st)) 0 || reload)%bool.

(** What steps 2 to 5 of [fetchPage] log and return when run on [index]:
    used to state what a run amounts to. *)
Definition servePage (deserialize : option (list byte) -> option StudentIntroReference)
    (connection : Connection) (index : list PublicKey) (page perPage : Z)
    : list Event * Result (list StudentIntroReference) :=
  match pageSlice index page perPage with
  | [] => ([], Ok [])
  | keys =>
      ([CallGetMultipleAccountsInfo keys],
       match getMultipleAccountsInfo connection keys with
       | Ok infos => Ok (fold_left (collect deserialize) infos [])
       | Throw e => Throw e
       end)
  end.

(** The index held in [st] is the one a successful [prefetchAccounts] with
    filter [search] left behind. *)
Definition builtWith (connection : Connection) (search : string)
    (st : Coordinator) : Prop :=
  exists st0,
    stateOf (prefetchAccounts connection search st0) = st /\
    resultOf (prefetchAccounts connection search st0) = Ok tt.

(* ------------------------------------------------------------------ *)
(** ** Byte order on sort keys *)

(** Lexicographic order on byte strings, a proper prefix sorting first. *)
Inductive bytesLe : list byte -> list byte -> Prop :=
| bytesLe_nil : forall l, bytesLe [] l
| bytesLe_lt : forall a b la lb,
    (Byte.to_N a < Byte.to_N b)%N -> bytesLe (a :: la) (b :: lb)
| bytesLe_eq : forall a la lb,
    bytesLe la lb -> bytesLe (a :: la) (a :: lb).

(** The key the comparator extracts from a data slice that carries its
    length prefix. *)
Definition sortKey (d : list byte) : list byte :=
  match readUInt32LE d 0 with
  | Ok length_ => slice d 4 (4 + length_)
  | Throw _ => []
  end.

Definition hasLengthPrefix (a : ProgramAccount) : bool :=
  (4 <=? length (data a))%nat.

(* ------------------------------------------------------------------ *)
(** ** A ledger snapshot behind the RPC boundary

    The repository consumes [web3.Connection]; for concrete scenarios the
    node is taken to serve a fixed list of accounts, answering
    [getProgramAccounts] with the owner's accounts that pass every [memcmp]
    filter, cut to the requested data slice, and [getMultipleAccountsInfo]
    with the full data of each address, or [null] for an unknown address. *)

Module Ledger.

Record Account : Type := {
  address : PublicKey;
  owner : string;
  contents : list byte
}.

Definition cut (d : list byte) (off len : Z) : list byte :=
  firstn (Z.to_nat len) (skipn (Z.to_nat off) d).

Definition memcmpMatches (d : list byte) (f : Memcmp) : bool :=
  if list_eq_dec byte_eq_dec
       (firstn (length (bytes f)) (skipn (Z.to_nat (offset f)) d)) (bytes f)
  then true else false.

Definition discover (ledger : list Account) (programId : string)
    (config : GetProgramAccountsConfig) : list ProgramAccount :=
  map (fun a => {| pubkey := address a;
                   data := cut (contents a) (fst (dataSlice config))
                               (snd (dataSlice config)) |})
      (filter (fun a => String.eqb (owner a) programId
                        && forallb (memcmpMatches (contents a)) (filters config))
              ledger).

Definition lookup (ledger : list Account) (key : PublicKey) : option AccountInfo :=
  option_map (fun a => {| info_data := contents a |})
             (find (fun a => String.eqb (address a) key) ledger).

Definition connection (ledger : list Account) : Connection :=
  {| getProgramAccounts := fun programId config =>
       Ok (discover ledger programId config);
     getMultipleAccountsInfo := fun keys => Ok (map (lookup ledger) keys) |}.

(** A node whose discovery request fails. *)
Definition unreachable (msg : string) : Connection :=
  {| getProgramAccounts := fun _ _ => Throw (RpcFailure msg);
     getMultipleAccountsInfo := fun _ => Throw (RpcFailure msg) |}.

(** A node that answers discovery with a fixed list, whatever is asked. *)
Definition canned (answer : list ProgramAccount) : Connection :=
  {| getProgramAccounts := fun _ _ => Ok answer;
     getMultipleAccountsInfo := fun keys => Ok (map (fun _ => None) keys) |}.

End Ledger.

(* ------------------------------------------------------------------ *)
(** ** Record layout *)

Definition byteOf (n : Z) : byte :=
  match Byte.of_N (Z.to_N (n mod 256)) with
  | Some b => b
  | None => x00
  end.

(** Modelled from the spec: the length prefix written by RecordCodec.Encode
    (the class [StudentIntroReference] is not among the sources), "a 4-byte
    little-endian unsigned length". *)
Definition u32le (n : Z) : list byte :=
  [byteOf n; byteOf (n / 256); byteOf (n / 65536); byteOf (n / 16777216)].

(** Modelled from the spec: a string field as RecordCodec.Encode writes it,
    the length prefix "followed by exactly that many UTF-8 bytes". *)
Definition encodeField (field : list byte) : list byte :=
  u32le (Z.of_nat (length field)) ++ field.

(** On-chain account data as [prefetchAccounts] addresses it: one leading
    byte, then the name field at offset 1 (its bytes at offset 5), then
    whatever follows. *)
Definition studentAccountData (flag : byte) (name_ rest : list byte) : list byte :=
  flag :: encodeField name_ ++ rest.

(* ------------------------------------------------------------------ *)
(** ** Record decoding

    [StudentIntroReference.deserialize] lives in the model class, which is not
    among the sources; [fetchPage] is verified for an arbitrary decoder, and
    the decoder below serves the concrete scenarios. *)

Module Codec.

Inductive DecodeError : Type := Empty | Truncated | InvalidUtf8.

Definition inRange (b : byte) (lo hi : N) : bool :=
  ((lo <=? Byte.to_N b) && (Byte.to_N b <=? hi))%N.

Definition continuation (b : byte) : bool := inRange b 128 191.

(** Lead byte and first continuation byte of a three-byte sequence. *)
Definition lead3 (b0 b1 : byte) : bool :=
  (inRange b0 224 224 && inRange b1 160 191)
  || (inRange b0 225 236 && continuation b1)
  || (inRange b0 237 237 && inRange b1 128 159)
  || (inRange b0 238 239 && continuation b1).

(** Lead byte and first continuation byte of a four-byte sequence. *)
Definition lead4 (b0 b1 : byte) : bool :=
  (inRange b0 240 240 && inRange b1 144 191)
  || (inRange b0 241 243 && continuation b1)
  || (inRange b0 244 244 && inRange b1 128 143).

(** Well-formed UTF-8 byte sequences. *)
Fixpoint validUtf8 (l : list byte) : bool :=
  match l with
  | [] => true
  | b0 :: t0 =>
      if inRange b0 0 127 then validUtf8 t0
      else
        match t0 with
        | [] => false
        | b1 :: t1 =>
            if inRange b0 194 223 then continuation b1 && validUtf8 t1
            else
              match t1 with
              | [] => false
              | b2 :: t2 =>
                  if lead3 b0 b1 then continuation b2 && validUtf8 t2
                  else
                    match t2 with
                    | [] => false
                    | b3 :: t3 =>
                        lead4 b0 b1 && continuation b2 && continuation b3
                        && validUtf8 t3
                    end
              end
        end
  end.

(** Modelled from the spec: one step of RecordCodec.Decode, "reads a 4-byte
    length, then that many bytes as the next field's raw content, advancing
    a cursor"; [Truncated] "if fewer bytes remain than a declared length or
    than the next length prefix requires", [InvalidUtf8] "if a string
    field's bytes are not valid UTF-8".  Returns the field and the rest of
    the buffer. *)
Definition readField (buf : list byte)
    : DecodeError + (list byte * list byte) :=
  match readUInt32LE buf 0 with
  | Throw _ => inl Truncated
  | Ok declared =>
      let rest := skipn 4 buf in
      if Z.of_nat (length rest) <? declared then inl Truncated
      else
        let field := firstn (Z.to_nat declared) rest in
        if validUtf8 field
        then inr (field, skipn (Z.to_nat declared) rest)
        else inl InvalidUtf8
  end.

(** Modelled from the spec: RecordCodec.Decode (the class
    [StudentIntroReference] is not among the sources), fields [name] then
    [message], [Empty] "if the input buffer is empty or absent". *)
Definition decode (input : option (list byte))
    : DecodeError + StudentIntroReference :=
  match input with
  | None | Some [] => inl Empty
  | Some buf =>
      match readField buf with
      | inl e => inl e
      | inr (name_, rest) =>
          match readField rest with
          | inl e => inl e
          | inr (message_, _) =>
              inr {| name := string_of_list_byte name_;
                     message := string_of_list_byte message_ |}
          end
      end
  end.

(** Modelled from the spec: [deserialize] as [fetchPage] sees it, [null] on
    every decode failure. *)
Definition deserialize (input : option (list byte))
    : option StudentIntroReference :=
  match decode input with
  | inr record => Some record
  | inl _ => None
  end.

(** Modelled from the spec: RecordCodec.Encode, the fields in fixed order,
    each behind its length prefix. *)
Definition encode (record : StudentIntroReference) : list byte :=
  encodeField (list_byte_of_string (name record))
  ++ encodeField (list_byte_of_string (message record)).

End Codec.

(* ------------------------------------------------------------------ *)
(** ** Student accounts *)

(** A student account on the ledger, by its parts. *)
Record StudentAccount : Type := {
  sa_key : PublicKey;
  sa_flag : byte;
  sa_name : list byte;
  sa_rest : list byte
}.

Definition onLedger (s : StudentAccount) : Ledger.Account :=
  {| Ledger.address := sa_key s;
     Ledger.owner := STUDENT_INTRO_PROGRAM_ID;
     Ledger.contents := studentAccountData (sa_flag s) (sa_name s) (sa_rest s) |}.

(** The slice of a student account that the discovery request of
    [prefetchAccounts] returns (offset 1, length 12, for every filter). *)
Definition discovered (s : StudentAccount) : ProgramAccount :=
  {| pubkey := sa_key s;
     data := Ledger.cut (Ledger.contents (onLedger s))
               (fst (dataSlice (prefetchConfig "")))
               (snd (dataSlice (prefetchConfig ""))) |}.

(** The students that pass the server-side filter of a rebuild. *)
Definition matching (search : string) (students : list StudentAccount)
    : list StudentAccount :=
  filter (fun s => forallb (Ledger.memcmpMatches (Ledger.contents (onLedger s)))
                           (filters (prefetchConfig search)))
         students.

(** Order of two students by the whole name, and by its first eight bytes. *)
Definition nameLe (a b : StudentAccount) : Prop :=
  bytesLe (sa_name a) (sa_name b).

Definition clippedNameLe (a b : StudentAccount) : Prop :=
  bytesLe (firstn 8 (sa_name a)) (firstn 8 (sa_name b)).

Definition fitsU32 (s : StudentAccount) : Prop :=
  Z.of_nat (length (sa_name s)) < 4294967296.

(* ------------------------------------------------------------------ *)
(** ** Scenario data *)

Module Scenario.

Local Open Scope string_scope.

Definition student (key name_ message_ : string) : StudentAccount :=
  {| sa_key := key; sa_flag := x01;
     sa_name := list_byte_of_string name_;
     sa_rest := encodeField (list_byte_of_string message_) |}.

(** Three students in ledger order Bob, Alice, amy. *)
Definition classroomStudents : list StudentAccount :=
  [ student "key-bob" "Bob" "hi";
    student "key-alice" "Alice" "hello";
    student "key-amy" "amy" "hey" ].

Definition classroom : list Ledger.Account := map onLedger classroomStudents.

(** Two students whose names differ only at the ninth byte, the greater
    name first in ledger order. *)
Definition lookalikeStudents : list StudentAccount :=
  [ student "key-b" "aaaaaaaab" "second by name";
    student "key-a" "aaaaaaaaa" "first by name" ].

Definition lookalikes : list Ledger.Account := map onLedger lookalikeStudents.

(** Seven accounts, for the pagination scenarios. *)
Definition sevenKeys : list PublicKey :=
  ["k0"; "k1"; "k2"; "k3"; "k4"; "k5"; "k6"].

Definition empty : Coordinator := {| accounts := [] |}.

Definition okRecord : StudentIntroReference :=
  {| name := "Alice"; message := "hello" |}.

(** A payload that decodes, and one whose declared name length (200)
    exceeds the bytes that follow. *)
Definition bytesOk : list byte := Codec.encode okRecord.
Definition bytesCorrupt : list byte := [xc8; x00; x00; x00; x41; x42].

(** A node whose batch fetch answers [valid bytes, absent, corrupt bytes]. *)
Definition patchy : Connection :=
  {| getProgramAccounts := fun _ _ => Ok [];
     getMultipleAccountsInfo := fun _ =>
       Ok [ Some {| info_data := bytesOk |};
            None;
            Some {| info_data := bytesCorrupt |} ] |}.

End Scenario.

(* ------------------------------------------------------------------ *)
(** ** Vocabulary of the statements *)

(** Order of two discovered accounts by the key read from their slices. *)
Definition keyLe (a b : ProgramAccount) : Prop :=
  bytesLe (sortKey (data a)) (sortKey (data b)).

(** The records [fetchPage] returns for a batch answer: every position that
    decodes, in the order of the answer. *)
Definition decodeAll (deserialize : option (list byte) -> option StudentIntroReference)
    (infos : list (option AccountInfo)) : list StudentIntroReference :=
  flat_map (fun info =>
              match deserialize (option_map info_data info) with
              | Some record => [record]
              | None => []
              end) infos.

(** The same, with the absent positions dropped before decoding. *)
Definition decodePresent (deserialize : option (list byte) -> option StudentIntroReference)
    (infos : list (option AccountInfo)) : list StudentIntroReference :=
  flat_map (fun info =>
              match info with
              | None => []
              | Some account =>
                  match deserialize (Some (info_data account)) with
                  | Some record => [record]
                  | None => []
                  end
              end) infos.

(* ------------------------------------------------------------------ *)
(** ** Further vocabulary: pagination, ties, filters *)

(** The pages 1 to [n] of size [perPage], one after the other. *)
Definition pagesUpTo (index : list PublicKey) (perPage : Z) (n : nat)
    : list PublicKey :=
  flat_map (fun p => pageSlice index (Z.of_nat p) perPage) (seq 1 n).

(** The account's slice yields the key [k]. *)
Definition sameKey (k : list byte) (a : ProgramAccount) : bool :=
  if list_eq_dec byte_eq_dec (sortKey (data a)) k then true else false.

(** [prefix] is an initial segment of [l]. *)
Definition startsWith (prefix l : list byte) : Prop :=
  firstn (length prefix) l = prefix.

(** A node that serves discovery from a ledger snapshot and whose batch
    fetch fails. *)
Definition batchFails (ledger : list Ledger.Account) (msg : string) : Connection :=
  {| getProgramAccounts := fun programId config =>
       Ok (Ledger.discover ledger programId config);
     getMultipleAccountsInfo := fun _ => Throw (RpcFailure msg) |}.

(** The node answers a batch fetch with one entry per requested key. *)
Definition answersEveryKey (connection : Connection) : Prop :=
  forall keys infos,
    getMultipleAccountsInfo connection keys = Ok infos ->
    length infos = length keys.

(* ------------------------------------------------------------------ *)
(** ** The page component ([pages/serialize/starter.tsx])

    The parts of the component that decide how [fetchPage] is called: the
    effect that loads the introductions, and the pagination buttons. *)

Module StudentIntrosPage.

(** The effect run on every change of [page], [search] or [connection]:
    [fetchPage(connection, page, 5, search, search !== '')]. *)
Definition loadIntros
    (deserialize : option (list byte) -> option StudentIntroReference)
    (connection : Connection) (page : Z) (search : string)
    : M (list StudentIntroReference) :=
  fetchPage deserialize connection page 5 search (negb (String.eqb search "")).


(** The state the pagination controls and the submit handler read: [page],
    [studentIntros.length], [isLoading], and the value of [page] that the
    memoized [createSubmission] closed over.  [createSubmission] is a
    [useCallback] whose dependencies are [publicKey, name, thoughts,
    connection, sendTransaction]; [page] is not among them, so the handler
    keeps the [page] of the render in which one of them last changed. *)
Record View : Type := {
  page : Z;
  shown : nat;
  isLoading : bool;
  submitPage : Z
}.

(** [useState(1)], [useState([])], [useState(false)]; the first render
    memoizes [createSubmission] with [page = 1]. *)
Definition initial : View :=
  {| page := 1; shown := 0; isLoading := false; submitPage := 1 |}.

(** [disabled={page <= 1 || isLoading}]. *)
Definition previousDisabled (v : View) : bool := (page v <=? 1) || isLoading v.

(** [disabled={studentIntros.length < 5 || isLoading}]. *)
Definition nextDisabled (v : View) : bool := (shown v <? 5)%nat || isLoading v.

(** What can happen to the view.
    - A click on either pagination button (a disabled button does not fire).
    - The list or the loading flag being set.
    - [FormChanged]: a dependency of [createSubmission] changes (a key typed
      into the form, the form cleared after a failed submission, the wallet
      or the connection changing), so the handler is re-created and closes
      over the current [page].
    - [Submitted]: a submission whose transaction succeeded.  The handler
      runs [if (page !== 1) setPage(1) else fetchPage(connection, 1, 5, '',
      true)] on the [page] it closed over, then the form is cleared, which
      re-creates the handler. *)
Inductive Action : Type :=
| ClickPrevious
| ClickNext
| SetStudentIntros (count : nat)
| SetIsLoading (flag : bool)
| FormChanged
| Submitted.

(** Whether a successful submission refetches page 1 itself (the [else]
    branch) instead of resetting [page]. *)
Definition submitRefetches (v : View) : bool := submitPage v =? 1.

Definition step (v : View) (a : Action) : View :=
  match a with
  | ClickPrevious =>
      if previousDisabled v then v
      else {| page := page v - 1; shown := shown v;
              isLoading := isLoading v; submitPage := submitPage v |}
  | ClickNext =>
      if nextDisabled v then v
      else {| page := page v + 1; shown := shown v;
              isLoading := isLoading v; submitPage := submitPage v |}
  | SetStudentIntros count =>
      {| page := page v; shown := count;
         isLoading := isLoading v; submitPage := submitPage v |}
  | SetIsLoading flag =>
      {| page := page v; shown := shown v;
         isLoading := flag; submitPage := submitPage v |}
  | FormChanged =>
      {| page := page v; shown := shown v;
         isLoading := isLoading v; submitPage := page v |}
  | Submitted =>
      let page' := if submitRefetches v then page v else 1 in
      {| page := page'; shown := shown v;
         isLoading := isLoading v; submitPage := page' |}
  end.

Definition run (actions : list Action) : View := fold_left step actions initial.

End StudentIntrosPage.

(* ================================================================== *)
(** * Properties *)

(* ------------------------------------------------------------------ *)
(** ** [slice] *)

Section SliceFacts.
Context {A : Type}.
Implicit Types (l : list A) (s e : Z).

Lemma relIndex_bounds len i : 0 <= len -> 0 <= relIndex len i <= len.
Proof.
  intros Hlen. unfold relIndex. destruct (i <? 0) eqn:Hi.
  - apply Z.ltb_lt in Hi. lia.
  - apply Z.ltb_ge in Hi. lia.
Qed.

Lemma slice_length l s e :
  Z.of_nat (length (slice l s e)) =
  Z.max 0 (relIndex (Z.of_nat (length l)) e - relIndex (Z.of_nat (length l)) s).
Proof.
  unfold slice.
  pose proof (relIndex_bounds (Z.of_nat (length l)) s (Nat2Z.is_nonneg _)) as Hs.
  pose proof (relIndex_bounds (Z.of_nat (length l)) e (Nat2Z.is_nonneg _)) as He.
  rewrite length_firstn, length_skipn. lia.
Qed.

(** With non-negative bounds [slice] is the plain half-open window. *)
Lemma slice_window l s e :
  0 <= s -> 0 <= e ->
  slice l s e = firstn (Z.to_nat (e - s)) (skipn (Z.to_nat s) l).
Proof.
  intros Hs He. unfold slice, relIndex.
  destruct (s <? 0) eqn:Es; [apply Z.ltb_lt in Es; lia|].
  destruct (e <? 0) eqn:Ee; [apply Z.ltb_lt in Ee; lia|].
  destruct (Z_le_gt_dec (Z.of_nat (length l)) s) as [Hout | Hin].
  - rewrite (skipn_all2 (n := Z.to_nat (Z.min s (Z.of_nat (length l))))) by lia.
    rewrite (skipn_all2 (n := Z.to_nat s)) by lia.
    now rewrite !firstn_nil.
  - replace (Z.min s (Z.of_nat (length l))) with s by lia.
    destruct (Z_le_gt_dec e (Z.of_nat (length l))) as [Hfit | Hover].
    + now replace (Z.min e (Z.of_nat (length l))) with e by lia.
    + rewrite !firstn_all2; try reflexivity; rewrite length_skipn; lia.
Qed.

Lemma slice_nil_iff l s e :
  slice l s e = [] <->
  relIndex (Z.of_nat (length l)) e <= relIndex (Z.of_nat (length l)) s.
Proof.
  pose proof (slice_length l s e) as Hlen.
  split; intros H.
  - rewrite H in Hlen. simpl in Hlen. lia.
  - apply length_zero_iff_nil. lia.
Qed.
End SliceFacts.

(* ------------------------------------------------------------------ *)
(** ** Page slicing *)

(** C4.  For an index of N identifiers, a page number [p >= 1] and a page
    size [s >= 1], the page slice is the window of the index that starts at
    position [(p-1)*s] and holds at most [s] entries, in index order; it has
    exactly [min s (max 0 (N - (p-1)*s))] entries, and its [i]-th entry is the
    index's entry at position [(p-1)*s + i]. *)
Theorem pageSlice_window (index : list PublicKey) (p s : Z) :
  1 <= p -> 1 <= s ->
  pageSlice index p s
    = firstn (Z.to_nat s) (skipn (Z.to_nat ((p - 1) * s)) index)
  /\ Z.of_nat (length (pageSlice index p s))
    = Z.min s (Z.max 0 (Z.of_nat (length index) - (p - 1) * s))
  /\ forall i, (i < length (pageSlice index p s))%nat ->
       nth_error (pageSlice index p s) i
       = nth_error index (Z.to_nat ((p - 1) * s) + i).
Proof.
  intros Hp Hs.
  assert (Hwin : pageSlice index p s
                 = firstn (Z.to_nat s) (skipn (Z.to_nat ((p - 1) * s)) index)).
  { unfold pageSlice. rewrite slice_window by nia.
    f_equal. f_equal. lia. }
  split; [exact Hwin|]. split.
  - rewrite Hwin, length_firstn, length_skipn.
    assert (0 <= (p - 1) * s) by nia. lia.
  - intros i Hi. rewrite Hwin in *.
    rewrite nth_error_firstn.
    rewrite length_firstn in Hi.
    destruct (Nat.ltb_spec i (Z.to_nat s)) as [_ | Hge]; [|lia].
    apply nth_error_skipn.
Qed.

Lemma pageSlice_window_witness :
  pageSlice Scenario.sevenKeys 2 5 = ["k5"; "k6"]%string
  /\ Z.of_nat (length (pageSlice Scenario.sevenKeys 2 5)) = 2.
Proof.
  destruct (pageSlice_window Scenario.sevenKeys 2 5) as (Hwin & Hlen & _);
    [lia | lia |].
  split; [rewrite Hwin; reflexivity | rewrite Hlen; reflexivity].
Defined.

(** C2 as stated fails: with seven identifiers cached, page [-1] of size 5
    is the slice [(-10, -5)], which JavaScript counts from the end of the
    array, and two identifiers come back. *)
Lemma pageSlice_nonpositive_counterexample :
  ~ (forall (index : list PublicKey) (page perPage : Z),
        page < 1 \/ perPage < 1 -> pageSlice index page perPage = []).
Proof.
  intros H. specialize (H Scenario.sevenKeys (-1) 5 (or_introl eq_refl)).
  vm_compute in H. discriminate H.
Qed.

(** C2, amended.  For arguments with [page < 1] or [perPage < 1] the page
    slice is a value (no exception), and it is empty except in exactly two
    situations, where negative bounds are counted from the end of the index:
    [page < 0] with [perPage >= 1] and more than [|page| * perPage] cached
    identifiers, and [page = 1] with [perPage < 0] and more than [|perPage|]
    cached identifiers.  In particular it is empty whenever [page = 0] or
    [perPage = 0]. *)
Theorem pageSlice_nonpositive (index : list PublicKey) (page perPage : Z) :
  page < 1 \/ perPage < 1 ->
  (pageSlice index page perPage = [] <->
   ~ ((page < 0 /\ 1 <= perPage /\ - (page * perPage) < Z.of_nat (length index))
      \/ (page = 1 /\ perPage < 0 /\ - perPage < Z.of_nat (length index)))).
Proof.
  intros Hnonpos. unfold pageSlice. rewrite slice_nil_iff.
  pose proof (Nat2Z.is_nonneg (length index)) as Hlen.
  remember (Z.of_nat (length index)) as n eqn:En. clear En.
  unfold relIndex.
  destruct (page * perPage <? 0) eqn:Ee;
    [apply Z.ltb_lt in Ee | apply Z.ltb_ge in Ee];
    (destruct ((page - 1) * perPage <? 0) eqn:Es;
     [apply Z.ltb_lt in Es | apply Z.ltb_ge in Es]).
  - (* both bounds negative *)
    destruct (Z_lt_le_dec perPage 0) as [Hneg | Hpos].
    + assert (1 < page) by nia. split; [intros _ | nia]. lia.
    + assert (page < 0) by nia. assert (1 <= perPage) by nia.
      split; intros H1.
      * intros [(_ & _ & Hbig) | (? & _)]; [nia | lia].
      * destruct (Z_lt_le_dec (- (page * perPage)) n) as [Hbig | Hsmall];
          [exfalso; apply H1; left; lia | nia].
  - (* start non-negative, end negative *)
    assert (perPage < 0) by nia.
    assert (1 <= page) by nia.
    destruct (Z.eq_dec page 1) as [-> | Hne].
    + replace ((1 - 1) * perPage) with 0 by lia.
      replace (1 * perPage) with perPage in * by lia.
      split; intros H1.
      * intros [(? & _) | (_ & _ & Hbig)]; lia.
      * destruct (Z_lt_le_dec (- perPage) n) as [Hbig | Hsmall];
          [exfalso; apply H1; right; lia | lia].
    + exfalso. nia.
  - (* start negative, end non-negative *)
    split; [intros _ | intros _; nia].
    intros [(? & ? & _) | (? & ? & _)]; nia.
  - (* both non-negative *)
    split; [intros _ | intros _].
    + intros [(? & ? & _) | (? & ? & _)]; nia.
    + destruct Hnonpos as [Hp | Hs]; nia.
Qed.

Lemma pageSlice_nonpositive_witness :
  pageSlice Scenario.sevenKeys 0 5 = []
  /\ pageSlice Scenario.sevenKeys 3 0 = []
  /\ pageSlice Scenario.sevenKeys (-1) 5 <> [].
Proof.
  split; [|split].
  - apply (pageSlice_nonpositive Scenario.sevenKeys 0 5); [lia|].
    simpl. lia.
  - apply (pageSlice_nonpositive Scenario.sevenKeys 3 0); [lia|].
    simpl. lia.
  - intros Hnil.
    apply (pageSlice_nonpositive Scenario.sevenKeys (-1) 5) in Hnil; [|lia].
    apply Hnil. simpl. lia.
Defined.

(* ------------------------------------------------------------------ *)
(** ** One run of [prefetchAccounts] and of [fetchPage] *)

(** The three ways a rebuild can end. *)
Lemma prefetchAccounts_run connection search st :
  prefetchAccounts connection search st =
  match getProgramAccounts connection STUDENT_INTRO_PROGRAM_ID
          (prefetchConfig search) with
  | Throw e => (st, [discoveryCall search], Throw e)
  | Ok accts =>
      match sort comparator accts with
      | Throw e => (st, [discoveryCall search], Throw e)
      | Ok sorted =>
          ({| accounts := map pubkey sorted |}, [discoveryCall search], Ok tt)
      end
  end.
Proof.
  unfold prefetchAccounts, bind, rpcGetProgramAccounts, liftR, setAccounts,
    discoveryCall.
  destruct (getProgramAccounts _ _ _) as [accts | e]; [|reflexivity].
  destruct (sort comparator accts) as [sorted | e]; reflexivity.
Qed.

Lemma prefetchAccounts_log connection search st :
  logOf (prefetchAccounts connection search st) = [discoveryCall search].
Proof.
  rewrite prefetchAccounts_run.
  destruct (getProgramAccounts _ _ _) as [accts | e]; [|reflexivity].
  destruct (sort comparator accts); reflexivity.
Qed.

(** A rebuild that throws leaves the static state as it was. *)
Lemma prefetchAccounts_throw_state connection search st e :
  resultOf (prefetchAccounts connection search st) = Throw e ->
  stateOf (prefetchAccounts connection search st) = st.
Proof.
  rewrite prefetchAccounts_run.
  destruct (getProgramAccounts _ _ _) as [accts | e1]; [|reflexivity].
  destruct (sort comparator accts); [discriminate | reflexivity].
Qed.

(** The outcome of a rebuild does not depend on the state it starts from,
    apart from keeping that state when it throws. *)
Lemma prefetchAccounts_ok_state connection search st st' :
  resultOf (prefetchAccounts connection search st) = Ok tt ->
  prefetchAccounts connection search st'
  = prefetchAccounts connection search st.
Proof.
  rewrite !prefetchAccounts_run.
  destruct (getProgramAccounts _ _ _) as [accts | e]; [|discriminate].
  destruct (sort comparator accts); [reflexivity | discriminate].
Qed.

Section FetchPageFacts.
Variable deserialize : option (list byte) -> option StudentIntroReference.
Variable connection : Connection.

Lemma fetchPage_cached page perPage search reload st :
  needsRebuild st reload = false ->
  fetchPage deserialize connection page perPage search reload st
  = (st, fst (servePage deserialize connection (accounts st) page perPage),
         snd (servePage deserialize connection (accounts st) page perPage)).
Proof.
  intros Hneeds.
  unfold fetchPage, bind, getAccounts, servePage. unfold needsRebuild in Hneeds. rewrite Hneeds.
  unfold ret.
  destruct (pageSlice (accounts st) page perPage) as [|key keys]; simpl.
  - reflexivity.
  - unfold rpcGetMultipleAccountsInfo.
    destruct (getMultipleAccountsInfo connection (key :: keys)); reflexivity.
Qed.

Lemma fetchPage_rebuild_throw page perPage search reload st e :
  needsRebuild st reload = true ->
  resultOf (prefetchAccounts connection search st) = Throw e ->
  fetchPage deserialize connection page perPage search reload st
  = (st, [discoveryCall search], Throw e).
Proof.
  intros Hneeds Hthrow.
  pose proof (prefetchAccounts_throw_state _ _ _ _ Hthrow) as Hst.
  pose proof (prefetchAccounts_log connection search st) as Hlog.
  unfold fetchPage, bind, getAccounts. unfold needsRebuild in Hneeds. rewrite Hneeds.
  destruct (prefetchAccounts connection search st) as [[st1 log1] r1].
  unfold stateOf, logOf, resultOf in *. simpl in *. subst.
  reflexivity.
Qed.

Lemma fetchPage_rebuild_ok page perPage search reload st :
  needsRebuild st reload = true ->
  resultOf (prefetchAccounts connection search st) = Ok tt ->
  fetchPage deserialize connection page perPage search reload st
  = let st1 := stateOf (prefetchAccounts connection search st) in
    (st1, discoveryCall search :: fst (servePage deserialize connection (accounts st1) page perPage),
          snd (servePage deserialize connection (accounts st1) page perPage)).
Proof.
  intros Hneeds Hok.
  pose proof (prefetchAccounts_log connection search st) as Hlog.
  unfold fetchPage, bind, getAccounts, servePage. unfold needsRebuild in Hneeds. rewrite Hneeds.
  destruct (prefetchAccounts connection search st) as [[st1 log1] r1].
  unfold stateOf, logOf, resultOf in *. simpl in *. subst.
  unfold ret.
  destruct (pageSlice (accounts st1) page perPage) as [|key keys]; simpl.
  - reflexivity.
  - unfold rpcGetMultipleAccountsInfo.
    destruct (getMultipleAccountsInfo connection (key :: keys)); reflexivity.
Qed.

Lemma servePage_no_discovery index page perPage :
  rebuildTriggered (fst (servePage deserialize connection index page perPage)) = false.
Proof.
  unfold servePage. destruct (pageSlice index page perPage); reflexivity.
Qed.

Lemma result_unit_cases (r : Result unit) :
  r = Ok tt \/ exists e, r = Throw e.
Proof. destruct r as [[]|e]; [now left | right; now exists e]. Qed.

End FetchPageFacts.

(* ------------------------------------------------------------------ *)
(** ** When the index is rebuilt *)

(** C1 as stated fails: the class stores no filter next to [accounts], and
    the guard of [fetchPage] looks only at the length of the cache and at
    [reload].  With an index built for the filter "Bob", a call for "amy"
    without [reload] sends no discovery request. *)
Lemma rebuild_on_filter_change_counterexample :
  ~ (forall deserialize connection st cachedFilter page perPage filter reload,
        builtWith connection cachedFilter st ->
        accounts st = [] \/ reload = true \/ cachedFilter <> filter ->
        rebuildTriggered
          (logOf (fetchPage deserialize connection page perPage filter reload st))
        = true).
Proof.
  intros H.
  specialize (H Codec.deserialize (Ledger.connection Scenario.classroom)
                {| accounts := ["key-bob"%string] |}
                "Bob"%string 1 5 "amy"%string false).
  assert (Hbuilt : builtWith (Ledger.connection Scenario.classroom) "Bob"
                     {| accounts := ["key-bob"%string] |}).
  { exists Scenario.empty. split; vm_compute; reflexivity. }
  assert (Hdiffers : "Bob"%string <> "amy"%string) by discriminate.
  specialize (H Hbuilt (or_intror (or_intror Hdiffers))).
  vm_compute in H. discriminate H.
Qed.

(** C1, amended.  A call to [fetchPage] triggers a rebuild exactly when the
    cached index is empty or [reload] is set; the filter argument plays no
    part in the decision.  When no rebuild is triggered the call leaves the
    state alone and serves its page from the index that is cached, whatever
    filter that index was built with. *)
Theorem rebuild_iff_empty_or_reload
    (deserialize : option (list byte) -> option StudentIntroReference)
    (connection : Connection) (page perPage : Z) (search : string)
    (reload : bool) (st : Coordinator) :
  rebuildTriggered
    (logOf (fetchPage deserialize connection page perPage search reload st))
  = (Nat.eqb (length (accounts st)) 0 || reload)%bool
  /\ ((Nat.eqb (length (accounts st)) 0 || reload)%bool = false ->
      fetchPage deserialize connection page perPage search reload st
      = (st, fst (servePage deserialize connection (accounts st) page perPage),
             snd (servePage deserialize connection (accounts st) page perPage))).
Proof.
  fold (needsRebuild st reload). split.
  - destruct (needsRebuild st reload) eqn:Hneeds.
    + destruct (result_unit_cases (resultOf (prefetchAccounts connection search st)))
        as [Hok | [e Hthrow]].
      * rewrite fetchPage_rebuild_ok by assumption. reflexivity.
      * rewrite (fetchPage_rebuild_throw _ _ _ _ _ _ _ e) by assumption.
        reflexivity.
    + rewrite fetchPage_cached by assumption.
      apply servePage_no_discovery.
  - apply fetchPage_cached.
Qed.

(** The call for "amy" on the index built for "Bob" asks the node for Bob's
    account and nothing else. *)
Lemma rebuild_iff_empty_or_reload_witness :
  logOf (fetchPage Codec.deserialize (Ledger.connection Scenario.classroom)
           1 5 "amy" false {| accounts := ["key-bob"%string] |})
  = [CallGetMultipleAccountsInfo ["key-bob"%string]].
Proof.
  rewrite (proj2 (rebuild_iff_empty_or_reload Codec.deserialize
                    (Ledger.connection Scenario.classroom) 1 5 "amy" false
                    {| accounts := ["key-bob"%string] |}));
    reflexivity.
Defined.

(* ------------------------------------------------------------------ *)
(** ** Failure of the discovery request *)

(** C5.  When the discovery request fails, [prefetchAccounts] throws that
    error and the cached index is unchanged; a [fetchPage] call that needed
    the rebuild throws the same error, again with the index unchanged.  In
    any run of [prefetchAccounts] the index is either left as it was or
    replaced as a whole at the end of a run that succeeded. *)
Theorem discovery_failure_keeps_index
    (deserialize : option (list byte) -> option StudentIntroReference)
    (connection : Connection) (search : string) (st : Coordinator) (e : Exn) :
  getProgramAccounts connection STUDENT_INTRO_PROGRAM_ID (prefetchConfig search)
  = Throw e ->
  (resultOf (prefetchAccounts connection search st) = Throw e
   /\ stateOf (prefetchAccounts connection search st) = st)
  /\ (forall page perPage reload,
        needsRebuild st reload = true ->
        resultOf (fetchPage deserialize connection page perPage search reload st)
        = Throw e
        /\ stateOf (fetchPage deserialize connection page perPage search reload st)
           = st)
  /\ (forall connection' search' st',
        stateOf (prefetchAccounts connection' search' st') = st'
        \/ (resultOf (prefetchAccounts connection' search' st') = Ok tt
            /\ exists sorted,
                 sort comparator
                   match getProgramAccounts connection' STUDENT_INTRO_PROGRAM_ID
                           (prefetchConfig search') with
                   | Ok accts => accts
                   | Throw _ => []
                   end = Ok sorted
                 /\ accounts (stateOf (prefetchAccounts connection' search' st'))
                    = map pubkey sorted)).
Proof.
  intros Hfail.
  assert (Hrun : prefetchAccounts connection search st
                 = (st, [discoveryCall search], Throw e)).
  { rewrite prefetchAccounts_run, Hfail. reflexivity. }
  split; [rewrite Hrun; split; reflexivity|]. split.
  - intros page perPage reload Hneeds.
    rewrite (fetchPage_rebuild_throw _ _ _ _ _ _ _ e); [split; reflexivity|assumption|].
    rewrite Hrun. reflexivity.
  - intros connection' search' st'. rewrite !prefetchAccounts_run.
    destruct (getProgramAccounts connection' _ _) as [accts | e1];
      [|left; reflexivity].
    destruct (sort comparator accts) as [sorted | e1] eqn:Hsort;
      [|left; reflexivity].
    right. split; [reflexivity|]. exists sorted. split; reflexivity.
Qed.

Lemma discovery_failure_keeps_index_witness :
  let st := {| accounts := Scenario.sevenKeys |} in
  resultOf (fetchPage Codec.deserialize (Ledger.unreachable "timeout")
              1 5 "" true st)
  = Throw (RpcFailure "timeout")
  /\ stateOf (fetchPage Codec.deserialize (Ledger.unreachable "timeout")
                1 5 "" true st) = st.
Proof.
  intros st.
  apply (discovery_failure_keeps_index Codec.deserialize
           (Ledger.unreachable "timeout") "" st (RpcFailure "timeout"));
    reflexivity.
Defined.

(* ------------------------------------------------------------------ *)
(** ** Empty pages *)

(** C7.  When [fetchPage] gets as far as slicing the index (no rebuild was
    needed, or the rebuild succeeded) and the slice is empty, it returns the
    empty record list without throwing, and its log holds no batch-fetch
    request. *)
Theorem empty_page_short_circuits
    (deserialize : option (list byte) -> option StudentIntroReference)
    (connection : Connection) (page perPage : Z) (search : string)
    (reload : bool) (st : Coordinator) :
  needsRebuild st reload = false
  \/ resultOf (prefetchAccounts connection search st) = Ok tt ->
  pageSlice
    (accounts
       (stateOf (fetchPage deserialize connection page perPage search reload st)))
    page perPage = [] ->
  resultOf (fetchPage deserialize connection page perPage search reload st) = Ok []
  /\ batchFetched
       (logOf (fetchPage deserialize connection page perPage search reload st))
     = false.
Proof.
  intros Hreached.
  destruct (needsRebuild st reload) eqn:Hneeds.
  - destruct Hreached as [Hfalse | Hok]; [discriminate|].
    rewrite fetchPage_rebuild_ok by assumption. cbn zeta.
    unfold stateOf at 1, resultOf at 1, logOf at 1. simpl fst. simpl snd.
    intros Hempty. unfold servePage. rewrite Hempty. split; reflexivity.
  - rewrite fetchPage_cached by assumption.
    unfold stateOf at 1, resultOf at 1, logOf at 1. simpl fst. simpl snd.
    intros Hempty. unfold servePage. rewrite Hempty. split; reflexivity.
Qed.

Lemma empty_page_short_circuits_witness :
  let run := fetchPage Codec.deserialize Scenario.patchy 100 5 "" false
               {| accounts := Scenario.sevenKeys |} in
  resultOf run = Ok [] /\ batchFetched (logOf run) = false.
Proof.
  apply (empty_page_short_circuits Codec.deserialize Scenario.patchy 100 5 ""
           false {| accounts := Scenario.sevenKeys |}).
  - left. reflexivity.
  - reflexivity.
Defined.

(* ------------------------------------------------------------------ *)
(** ** Determinism *)

(** C8.  Against a connection whose answers do not change, a [fetchPage]
    call without [reload] that is repeated with the same arguments, on the
    state the first call left, gives the same result (the same records in the
    same order, or the same error) and leaves the same index. *)
Theorem fetchPage_repeatable
    (deserialize : option (list byte) -> option StudentIntroReference)
    (connection : Connection) (page perPage : Z) (search : string)
    (st : Coordinator) :
  let first := fetchPage deserialize connection page perPage search false st in
  let second :=
    fetchPage deserialize connection page perPage search false (stateOf first) in
  resultOf second = resultOf first /\ stateOf second = stateOf first.
Proof.
  cbn zeta.
  destruct (needsRebuild st false) eqn:Hneeds.
  - destruct (result_unit_cases (resultOf (prefetchAccounts connection search st)))
      as [Hok | [e Hthrow]].
    + rewrite (fetchPage_rebuild_ok _ _ _ _ _ _ st) by assumption. cbn zeta.
      set (st1 := stateOf (prefetchAccounts connection search st)).
      unfold stateOf at 1 3 4, resultOf at 2. simpl fst. simpl snd.
      destruct (needsRebuild st1 false) eqn:Hneeds1.
      * assert (Hsame : prefetchAccounts connection search st1
                        = prefetchAccounts connection search st)
          by (apply prefetchAccounts_ok_state; assumption).
        rewrite fetchPage_rebuild_ok by (try assumption; now rewrite Hsame).
        cbn zeta. rewrite Hsame. fold st1. split; reflexivity.
      * rewrite fetchPage_cached by assumption. split; reflexivity.
    + rewrite (fetchPage_rebuild_throw _ _ _ _ _ _ st e) by assumption.
      unfold stateOf at 1 3 4. simpl fst.
      rewrite (fetchPage_rebuild_throw _ _ _ _ _ _ st e) by assumption.
      split; reflexivity.
  - rewrite (fetchPage_cached _ _ _ _ _ _ st) by assumption.
    unfold stateOf at 1 3 4. simpl fst.
    rewrite fetchPage_cached by assumption. split; reflexivity.
Qed.

(* ------------------------------------------------------------------ *)
(** ** Skipping what does not decode *)

Section Collect.
Variable deserialize : option (list byte) -> option StudentIntroReference.

(** The [reduce] over the batch answer appends the decodable positions to
    the accumulator, left to right. *)
Lemma fold_collect infos : forall accum,
  fold_left (collect deserialize) infos accum
  = accum ++ decodeAll deserialize infos.
Proof.
  induction infos as [|info infos IH]; intros accum; simpl.
  - now rewrite app_nil_r.
  - rewrite IH. unfold collect.
    destruct (deserialize (option_map info_data info)) as [record|]; simpl.
    + now rewrite <- app_assoc.
    + reflexivity.
Qed.

Lemma decodeAll_present infos :
  deserialize None = None ->
  decodeAll deserialize infos = decodePresent deserialize infos.
Proof.
  intros Habsent. unfold decodeAll, decodePresent.
  induction infos as [|[account|] infos IH]; simpl.
  - reflexivity.
  - now rewrite IH.
  - now rewrite Habsent, IH.
Qed.
End Collect.

(** C6.  When [fetchPage] reaches the batch fetch (the page slice [keys] is
    not empty) and the node answers [infos], the call returns, without
    throwing, exactly the records of the positions that decode, in the order
    of the answer; a position that does not decode is left out and the
    positions after it are still processed.  With a decoder that returns
    [null] for a missing buffer (as [deserialize] does for a deleted account),
    the absent positions are among those left out. *)
Theorem fetchPage_skips_undecodable
    (deserialize : option (list byte) -> option StudentIntroReference)
    (connection : Connection) (page perPage : Z) (search : string)
    (reload : bool) (st : Coordinator)
    (keys : list PublicKey) (infos : list (option AccountInfo)) :
  needsRebuild st reload = false
  \/ resultOf (prefetchAccounts connection search st) = Ok tt ->
  keys = pageSlice
           (accounts
              (stateOf (fetchPage deserialize connection page perPage search reload st)))
           page perPage ->
  keys <> [] ->
  getMultipleAccountsInfo connection keys = Ok infos ->
  deserialize None = None ->
  resultOf (fetchPage deserialize connection page perPage search reload st)
  = Ok (decodeAll deserialize infos)
  /\ decodeAll deserialize infos = decodePresent deserialize infos
  /\ forall before info after,
       infos = before ++ info :: after ->
       decodeAll deserialize infos
       = decodeAll deserialize before
         ++ match deserialize (option_map info_data info) with
            | Some record => [record]
            | None => []
            end
         ++ decodeAll deserialize after.
Proof.
  intros Hreached Hkeys Hnonempty Hbatch Habsent.
  split; [|split].
  - assert (Hserve : forall index,
               keys = pageSlice index page perPage ->
               snd (servePage deserialize connection index page perPage)
               = Ok (decodeAll deserialize infos)).
    { intros index Hidx. unfold servePage. rewrite <- Hidx.
      destruct keys as [|key keys']; [congruence|].
      simpl. rewrite Hbatch, fold_collect. reflexivity. }
    destruct (needsRebuild st reload) eqn:Hneeds.
    + destruct Hreached as [Hfalse | Hok]; [discriminate|].
      rewrite fetchPage_rebuild_ok in Hkeys |- * by assumption.
      apply Hserve. exact Hkeys.
    + rewrite fetchPage_cached in Hkeys |- * by assumption.
      apply Hserve. exact Hkeys.
  - apply decodeAll_present. exact Habsent.
  - intros before info after ->. unfold decodeAll.
    rewrite flat_map_app. simpl. reflexivity.
Qed.

Lemma fetchPage_skips_undecodable_witness :
  resultOf (fetchPage Codec.deserialize Scenario.patchy 1 3 "" false
              {| accounts := ["k0"; "k1"; "k2"]%string |})
  = Ok [Scenario.okRecord].
Proof.
  apply (fetchPage_skips_undecodable Codec.deserialize Scenario.patchy 1 3 ""
           false {| accounts := ["k0"; "k1"; "k2"]%string |}
           ["k0"; "k1"; "k2"]%string
           [ Some {| info_data := Scenario.bytesOk |};
             None;
             Some {| info_data := Scenario.bytesCorrupt |} ]).
  - left. reflexivity.
  - reflexivity.
  - discriminate.
  - reflexivity.
  - reflexivity.
Defined.

(* ------------------------------------------------------------------ *)
(** ** The byte comparison of the sort callback *)

Lemma to_N_inj (a b : byte) : Byte.to_N a = Byte.to_N b -> a = b.
Proof.
  intros H. pose proof (Byte.of_to_N a) as Ha. rewrite H, Byte.of_to_N in Ha.
  congruence.
Qed.

Lemma compareLoop_shift a b la lb n : forall i,
  compareLoop (a :: la) (b :: lb) (S i) n = compareLoop la lb i n.
Proof.
  induction n as [|n IH]; intros i; cbn [compareLoop nth].
  - cbn [length]. rewrite !Nat2Z.inj_succ. lia.
  - now rewrite IH.
Qed.

Lemma compareData_nil_l l : compareData [] l = - Z.of_nat (length l).
Proof. unfold compareData. simpl. lia. Qed.

Lemma compareData_nil_r l : compareData l [] = Z.of_nat (length l).
Proof. unfold compareData. rewrite Nat.min_0_r. simpl. lia. Qed.

Lemma compareData_cons a b la lb :
  compareData (a :: la) (b :: lb) =
  if (Byte.to_N a <? Byte.to_N b)%N then -1
  else if (Byte.to_N b <? Byte.to_N a)%N then 1
  else compareData la lb.
Proof.
  unfold compareData. simpl length. simpl Nat.min. simpl compareLoop.
  now rewrite compareLoop_shift.
Qed.

Lemma compareData_refl l : compareData l l = 0.
Proof.
  induction l as [|a l IH].
  - reflexivity.
  - rewrite compareData_cons, N.ltb_irrefl. exact IH.
Qed.

(** The loop decides the lexicographic order. *)
Lemma compareData_le_iff la : forall lb,
  compareData la lb <= 0 <-> bytesLe la lb.
Proof.
  induction la as [|a la IH]; intros [|b lb].
  - split; [constructor | rewrite compareData_nil_l; simpl; lia].
  - split; [constructor | rewrite compareData_nil_l; lia].
  - rewrite compareData_nil_r. split.
    + simpl length. lia.
    + intros H. inversion H.
  - rewrite compareData_cons.
    destruct (N.ltb_spec (Byte.to_N a) (Byte.to_N b)) as [Hlt | Hge].
    + split; [intros _; now apply bytesLe_lt | lia].
    + destruct (N.ltb_spec (Byte.to_N b) (Byte.to_N a)) as [Hgt | Hle].
      * split; [lia|]. intros H. inversion H; subst; lia.
      * assert (a = b) by (apply to_N_inj; lia). subst b.
        rewrite IH. split.
        -- now apply bytesLe_eq.
        -- intros H. inversion H; subst; [lia | assumption].
  Qed.

Lemma compareData_gt_flip la : forall lb,
  0 < compareData la lb -> compareData lb la <= 0.
Proof.
  induction la as [|a la IH]; intros [|b lb].
  - rewrite compareData_nil_l. simpl. lia.
  - rewrite compareData_nil_l. lia.
  - rewrite compareData_nil_l. lia.
  - rewrite !compareData_cons.
    destruct (N.ltb_spec (Byte.to_N a) (Byte.to_N b)) as [Hlt | Hge]; [lia|].
    destruct (N.ltb_spec (Byte.to_N b) (Byte.to_N a)) as [Hgt | Hle]; [lia|].
    apply IH.
Qed.

Lemma compareData_zero_iff la : forall lb, compareData la lb = 0 <-> la = lb.
Proof.
  induction la as [|a la IH]; intros [|b lb].
  - split; reflexivity.
  - rewrite compareData_nil_l. cbn [length]. split; [lia | discriminate].
  - rewrite compareData_nil_r. cbn [length]. split; [lia | discriminate].
  - rewrite compareData_cons.
    destruct (N.ltb_spec (Byte.to_N a) (Byte.to_N b)) as [Hlt | Hge].
    + split; [lia|]. intros H. inversion H. subst. lia.
    + destruct (N.ltb_spec (Byte.to_N b) (Byte.to_N a)) as [Hgt | Hle].
      * split; [lia|]. intros H. inversion H. subst. lia.
      * assert (a = b) by (apply to_N_inj; lia). subst b.
        rewrite IH. split; [now intros -> | intros H; now inversion H].
Qed.

Lemma compareData_sgn_flip la : forall lb,
  Z.sgn (compareData lb la) = - Z.sgn (compareData la lb).
Proof.
  induction la as [|a la IH]; intros [|b lb].
  - reflexivity.
  - rewrite compareData_nil_l, compareData_nil_r. cbn [length]. lia.
  - rewrite compareData_nil_l, compareData_nil_r. cbn [length]. lia.
  - rewrite !compareData_cons.
    destruct (N.ltb_spec (Byte.to_N a) (Byte.to_N b)) as [Hlt | Hge];
      destruct (N.ltb_spec (Byte.to_N b) (Byte.to_N a)) as [Hgt | Hle];
      try reflexivity; try lia.
    apply IH.
Qed.

Lemma compareData_prefix la : forall extra,
  compareData la (la ++ extra) = - Z.of_nat (length extra).
Proof.
  induction la as [|a la IH]; intros extra.
  - apply compareData_nil_l.
  - cbn [app]. rewrite compareData_cons, N.ltb_irrefl. apply IH.
Qed.

Lemma compareData_extension la : forall extra,
  compareData (la ++ extra) la = Z.of_nat (length extra).
Proof.
  induction la as [|a la IH]; intros extra.
  - apply compareData_nil_r.
  - cbn [app]. rewrite compareData_cons, N.ltb_irrefl. apply IH.
Qed.

Lemma bytesLe_refl l : bytesLe l l.
Proof. induction l; constructor; assumption. Qed.

Lemma bytesLe_trans la : forall lb lc,
  bytesLe la lb -> bytesLe lb lc -> bytesLe la lc.
Proof.
  induction la as [|a la IH]; intros lb lc Hab Hbc.
  - constructor.
  - inversion Hab; subst; inversion Hbc; subst.
    + apply bytesLe_lt. lia.
    + now apply bytesLe_lt.
    + now apply bytesLe_lt.
    + apply bytesLe_eq. eapply IH; eassumption.
Qed.

(* ------------------------------------------------------------------ *)
(** ** The sort callback *)

Lemma readUInt32LE_long d :
  (4 <= length d)%nat -> exists n, readUInt32LE d 0 = Ok n.
Proof.
  intros H. unfold readUInt32LE. simpl skipn.
  destruct d as [|b0 [|b1 [|b2 [|b3 d]]]]; simpl in H; try lia.
  eexists. reflexivity.
Qed.

Lemma readUInt32LE_short d :
  (length d < 4)%nat -> readUInt32LE d 0 = Throw RangeError.
Proof.
  intros H. unfold readUInt32LE. simpl skipn.
  destruct d as [|b0 [|b1 [|b2 [|b3 d]]]]; simpl in H; try lia; reflexivity.
Qed.

(** The callback throws exactly when one of the two slices is too short for
    its length prefix. *)
Lemma comparator_short_l a b :
  hasLengthPrefix a = false -> comparator a b = Throw RangeError.
Proof.
  unfold hasLengthPrefix, comparator. intros H. apply Nat.leb_gt in H.
  now rewrite readUInt32LE_short.
Qed.

Lemma comparator_short_r a b :
  hasLengthPrefix b = false -> comparator a b = Throw RangeError.
Proof.
  unfold hasLengthPrefix, comparator. intros H. apply Nat.leb_gt in H.
  rewrite (readUInt32LE_short (data b)) by assumption.
  destruct (Nat.ltb_spec (length (data a)) 4) as [Hshort | Hlong].
  - now rewrite readUInt32LE_short.
  - destruct (readUInt32LE_long _ Hlong) as [lengthA ->]. reflexivity.
Qed.

(** Whenever the callback returns, it returns the comparison of the keys. *)
Lemma comparator_ok a b c :
  comparator a b = Ok c ->
  c = compareData (sortKey (data a)) (sortKey (data b)).
Proof.
  unfold comparator, sortKey.
  destruct (readUInt32LE (data a) 0) as [lengthA|]; [|discriminate].
  destruct (readUInt32LE (data b) 0) as [lengthB|]; [|discriminate].
  simpl. congruence.
Qed.

Lemma comparator_long a b :
  hasLengthPrefix a = true -> hasLengthPrefix b = true ->
  comparator a b = Ok (compareData (sortKey (data a)) (sortKey (data b))).
Proof.
  unfold hasLengthPrefix. intros Ha Hb.
  apply Nat.leb_le in Ha, Hb.
  destruct (readUInt32LE_long _ Ha) as [lengthA HA].
  destruct (readUInt32LE_long _ Hb) as [lengthB HB].
  unfold comparator, sortKey. rewrite HA, HB. reflexivity.
Qed.

(* ------------------------------------------------------------------ *)
(** ** Sorting the discovered accounts *)

Section SortAnyCallback.
Context {A : Type}.
Variable compareFn : A -> A -> Result Z.

Lemma insert_perm x l : forall r,
  insert compareFn x l = Ok r -> Permutation (x :: l) r.
Proof.
  induction l as [|h t IH]; intros r H; simpl in H.
  - inversion H. reflexivity.
  - destruct (compareFn x h) as [c|]; [simpl in H | discriminate].
    destruct (c <=? 0).
    + inversion H. reflexivity.
    + destruct (insert compareFn x t) as [t'|]; [simpl in H | discriminate].
      inversion H. rewrite perm_swap. apply perm_skip. now apply IH.
Qed.

Lemma sort_perm l : forall r,
  sort compareFn l = Ok r -> Permutation l r.
Proof.
  induction l as [|x rest IH]; intros r H; simpl in H.
  - inversion H. constructor.
  - destruct (sort compareFn rest) as [rest'|]; [simpl in H | discriminate].
    rewrite (IH rest' eq_refl). now apply insert_perm.
Qed.

(** Arrays of fewer than two elements are returned as they are. *)
Lemma sort_small l : (length l < 2)%nat -> sort compareFn l = Ok l.
Proof.
  destruct l as [|x [|y l]]; simpl; intros H; try reflexivity; lia.
Qed.
End SortAnyCallback.

Lemma comparator_throws_RangeError a b e :
  comparator a b = Throw e -> e = RangeError.
Proof.
  destruct (hasLengthPrefix a) eqn:Ha.
  - destruct (hasLengthPrefix b) eqn:Hb.
    + rewrite comparator_long by assumption. discriminate.
    + rewrite comparator_short_r by assumption. congruence.
  - rewrite comparator_short_l by assumption. congruence.
Qed.

Lemma insert_throws_RangeError x l e :
  insert comparator x l = Throw e -> e = RangeError.
Proof.
  induction l as [|h t IH]; simpl; [discriminate|].
  destruct (comparator x h) as [c|e1] eqn:Hc; simpl.
  - destruct (c <=? 0); [discriminate|].
    destruct (insert comparator x t) as [t'|e2]; simpl; [discriminate|].
    intros H. apply IH. congruence.
  - intros H. apply (comparator_throws_RangeError x h). congruence.
Qed.

Lemma sort_throws_RangeError l e :
  sort comparator l = Throw e -> e = RangeError.
Proof.
  induction l as [|x rest IH]; simpl; [discriminate|].
  destruct (sort comparator rest) as [rest'|e1]; simpl.
  - apply insert_throws_RangeError.
  - intros H. apply IH. congruence.
Qed.

(** Inserting into a key-sorted array keeps it key-sorted. *)
Lemma insert_sorted x l : forall r,
  Sorted keyLe l -> insert comparator x l = Ok r -> Sorted keyLe r.
Proof.
  induction l as [|h t IH]; intros r Hsorted H; simpl in H.
  - inversion H. repeat constructor.
  - destruct (comparator x h) as [c|] eqn:Hc; [simpl in H | discriminate].
    apply comparator_ok in Hc.
    destruct (Z.leb_spec c 0) as [Hle | Hgt].
    + inversion H. constructor; [assumption|]. constructor.
      apply compareData_le_iff. now rewrite <- Hc.
    + destruct (insert comparator x t) as [t'|] eqn:Hins; [simpl in H | discriminate].
      inversion H. subst r. inversion Hsorted as [|? ? Ht Hhd]; subst.
      constructor; [now apply IH|].
      assert (Hhx : keyLe h x).
      { apply compareData_le_iff, compareData_gt_flip. exact Hgt. }
      destruct t as [|h2 t2]; simpl in Hins.
      * inversion Hins. now constructor.
      * destruct (comparator x h2) as [c2|]; [simpl in Hins | discriminate].
        destruct (c2 <=? 0).
        -- inversion Hins. now constructor.
        -- destruct (insert comparator x t2); [simpl in Hins | discriminate].
           inversion Hins. constructor. now inversion Hhd.
Qed.

Lemma sort_sorted l : forall r,
  sort comparator l = Ok r -> Sorted keyLe r.
Proof.
  induction l as [|x rest IH]; intros r H; simpl in H.
  - inversion H. constructor.
  - destruct (sort comparator rest) as [rest'|]; [simpl in H | discriminate].
    eapply insert_sorted; [|eassumption]. now apply IH.
Qed.

Lemma keyLe_trans : Relations_1.Transitive keyLe.
Proof. intros a b c. unfold keyLe. apply bytesLe_trans. Qed.

(** When every slice carries its length prefix the sort goes through. *)
Lemma insert_total x l :
  hasLengthPrefix x = true -> Forall (fun a => hasLengthPrefix a = true) l ->
  exists r, insert comparator x l = Ok r.
Proof.
  intros Hx. induction 1 as [|h t Hh Ht IH]; simpl.
  - eexists. reflexivity.
  - rewrite comparator_long by assumption. simpl.
    destruct (_ <=? 0); [eexists; reflexivity|].
    destruct IH as [t' ->]. simpl. eexists. reflexivity.
Qed.

Lemma sort_total l :
  Forall (fun a => hasLengthPrefix a = true) l ->
  exists r, sort comparator l = Ok r.
Proof.
  induction 1 as [|x rest Hx Hrest IH]; simpl.
  - eexists. reflexivity.
  - destruct IH as [rest' Hsort]. rewrite Hsort. simpl.
    apply insert_total; [assumption|].
    eapply Permutation_Forall; [|exact Hrest].
    eapply sort_perm. exact Hsort.
Qed.

(** With two or more accounts every one of them reaches the callback, so a
    single slice without length prefix makes the sort throw. *)
Lemma sort_short l :
  (2 <= length l)%nat ->
  Exists (fun a => hasLengthPrefix a = false) l ->
  sort comparator l = Throw RangeError.
Proof.
  induction l as [|x rest IH]; intros Hlen Hshort; simpl in Hlen; [lia|].
  simpl. inversion Hshort as [? ? Hx | ? ? Hrest]; subst.
  - destruct (sort comparator rest) as [rest'|e] eqn:Hsort; simpl.
    + pose proof (Permutation_length (sort_perm _ _ _ Hsort)) as Hsame.
      destruct rest' as [|h t]; simpl in Hsame; [lia|].
      simpl. now rewrite comparator_short_l.
    + now rewrite (sort_throws_RangeError _ _ Hsort).
  - destruct rest as [|y [|z rest]]; simpl in Hlen; [lia | |].
    + inversion Hrest as [? ? Hy | ? ? Hnil]; subst; [|inversion Hnil].
      simpl. now rewrite comparator_short_r.
    + rewrite IH; [reflexivity | simpl; lia | assumption].
Qed.

(* ------------------------------------------------------------------ *)
(** ** A slice without length prefix *)

(** C10 as stated fails: a discovery answer that holds a single account is
    returned by [sort] without any call to the callback, so a too-short slice
    is not read and the rebuild succeeds, caching that account. *)
Lemma short_slice_counterexample :
  ~ (forall connection search st accts,
        getProgramAccounts connection STUDENT_INTRO_PROGRAM_ID
          (prefetchConfig search) = Ok accts ->
        Exists (fun a => (length (data a) < 4)%nat) accts ->
        (exists e, resultOf (prefetchAccounts connection search st) = Throw e)
        /\ stateOf (prefetchAccounts connection search st) = st).
Proof.
  intros H.
  destruct (H (Ledger.canned [ {| pubkey := "lonely"%string; data := [] |} ])
              ""%string Scenario.empty
              [ {| pubkey := "lonely"%string; data := [] |} ] eq_refl)
    as [[e He] _].
  - constructor. simpl. lia.
  - vm_compute in He. discriminate He.
Qed.

(** C10, amended.  If discovery returns at least two accounts and one of
    them carries a data slice of fewer than 4 bytes, the sort callback's
    32-bit read is out of bounds and throws, so [prefetchAccounts] throws
    [RangeError] and the cached index is left as it was: the malformed
    account is not skipped. *)
Theorem short_slice_aborts_rebuild
    (connection : Connection) (search : string) (st : Coordinator)
    (accts : list ProgramAccount) :
  getProgramAccounts connection STUDENT_INTRO_PROGRAM_ID (prefetchConfig search)
  = Ok accts ->
  (2 <= length accts)%nat ->
  Exists (fun a => (length (data a) < 4)%nat) accts ->
  resultOf (prefetchAccounts connection search st) = Throw RangeError
  /\ stateOf (prefetchAccounts connection search st) = st.
Proof.
  intros Hfound Htwo Hshort.
  rewrite prefetchAccounts_run, Hfound, sort_short.
  - split; reflexivity.
  - exact Htwo.
  - eapply Exists_impl; [|exact Hshort].
    intros a Ha. unfold hasLengthPrefix. now apply Nat.leb_gt.
Qed.

Lemma short_slice_aborts_rebuild_witness :
  let answer := [ {| pubkey := "whole"%string; data := [x03; x00; x00; x00; x42; x6f; x62] |};
                  {| pubkey := "broken"%string; data := [x03; x00] |} ] in
  let st := {| accounts := Scenario.sevenKeys |} in
  resultOf (prefetchAccounts (Ledger.canned answer) "" st) = Throw RangeError
  /\ stateOf (prefetchAccounts (Ledger.canned answer) "" st) = st.
Proof.
  intros answer st.
  apply (short_slice_aborts_rebuild (Ledger.canned answer) "" st answer).
  - reflexivity.
  - simpl. lia.
  - apply Exists_cons_tl, Exists_cons_hd. simpl. lia.
Defined.

(* ------------------------------------------------------------------ *)
(** ** What discovery returns for a student account *)

Lemma byteOf_value n : Z.of_N (Byte.to_N (byteOf n)) = n mod 256.
Proof.
  unfold byteOf.
  pose proof (Z.mod_pos_bound n 256 ltac:(lia)) as Hbound.
  destruct (Byte.of_N (Z.to_N (n mod 256))) as [b|] eqn:Hb.
  - apply Byte.to_of_N in Hb. rewrite Hb. lia.
  - apply Byte.of_N_None_iff in Hb. lia.
Qed.

Lemma readUInt32LE_u32le n rest :
  0 <= n < 4294967296 -> readUInt32LE (u32le n ++ rest) 0 = Ok n.
Proof.
  intros Hn. unfold readUInt32LE, u32le. cbn [skipn app]. f_equal.
  rewrite !byteOf_value.
  replace (n / 65536) with (n / 256 / 256)
    by (rewrite Z.div_div by lia; reflexivity).
  replace (n / 16777216) with (n / 256 / 256 / 256)
    by (rewrite !Z.div_div by lia; reflexivity).
  Z.div_mod_to_equations. lia.
Qed.

Lemma discovered_data s :
  data (discovered s)
  = u32le (Z.of_nat (length (sa_name s))) ++ firstn 8 (sa_name s ++ sa_rest s).
Proof. reflexivity. Qed.

Lemma discovered_hasLengthPrefix s : hasLengthPrefix (discovered s) = true.
Proof.
  unfold hasLengthPrefix. rewrite discovered_data. apply Nat.leb_le.
  rewrite length_app. simpl. lia.
Qed.

(** The key read from a discovered slice is the name cut to eight bytes. *)
Lemma discovered_sortKey s :
  fitsU32 s -> sortKey (data (discovered s)) = firstn 8 (sa_name s).
Proof.
  unfold fitsU32. intros Hfits. unfold sortKey.
  rewrite discovered_data, readUInt32LE_u32le by lia.
  rewrite slice_window by lia.
  replace (Z.to_nat (4 + Z.of_nat (length (sa_name s)) - 4))
    with (length (sa_name s)) by lia.
  change (skipn (Z.to_nat 4) (u32le ?n ++ ?l)) with l.
  rewrite firstn_firstn, firstn_app.
  replace (Nat.min (length (sa_name s)) 8 - length (sa_name s))%nat with 0%nat by lia.
  rewrite firstn_O, app_nil_r.
  destruct (Nat.le_gt_cases (length (sa_name s)) 8) as [Hshort | Hlong].
  - rewrite Nat.min_l by assumption. now rewrite !firstn_all2 by lia.
  - now rewrite Nat.min_r by lia.
Qed.

Lemma discover_students students search :
  Ledger.discover (map onLedger students) STUDENT_INTRO_PROGRAM_ID
    (prefetchConfig search)
  = map discovered (matching search students).
Proof.
  unfold Ledger.discover, matching.
  induction students as [|s students IH]; [reflexivity|].
  cbn [map filter]. cbn [Ledger.owner onLedger]. rewrite String.eqb_refl.
  cbn [andb].
  destruct (forallb _ _); cbn [map]; now rewrite IH.
Qed.

(* ------------------------------------------------------------------ *)
(** ** What the callback can tell apart *)

(** C9.  The slice requested per account is 12 bytes long, so the callback
    compares two student accounts by the first eight bytes of their names
    (by the whole name when it is shorter) and by nothing else: its result is
    at most 0 exactly when the clipped name of the first precedes or equals
    that of the second in byte order, 0 exactly when the clipped names are
    equal, and, when one clipped name is a prefix of the other, the
    difference of the clipped lengths.  Two accounts whose names agree with
    those of [a] and [b] on the first eight bytes get the same result; for
    two names of at least eight bytes that agree on their first eight bytes
    the result is 0, whatever follows in the names. *)
Theorem comparator_sees_eight_bytes (a b : StudentAccount) :
  fitsU32 a -> fitsU32 b ->
  (length (data (discovered a)) <= 12)%nat
  /\ comparator (discovered a) (discovered b)
     = Ok (compareData (firstn 8 (sa_name a)) (firstn 8 (sa_name b)))
  /\ (exists v,
        comparator (discovered a) (discovered b) = Ok v
        /\ (v <= 0 <-> clippedNameLe a b)
        /\ (v = 0 <-> firstn 8 (sa_name a) = firstn 8 (sa_name b))
        /\ ((exists extra,
               firstn 8 (sa_name b) = firstn 8 (sa_name a) ++ extra
               \/ firstn 8 (sa_name a) = firstn 8 (sa_name b) ++ extra) ->
            v = Z.of_nat (length (firstn 8 (sa_name a)))
                - Z.of_nat (length (firstn 8 (sa_name b)))))
  /\ (forall a' b',
        fitsU32 a' -> fitsU32 b' ->
        firstn 8 (sa_name a') = firstn 8 (sa_name a) ->
        firstn 8 (sa_name b') = firstn 8 (sa_name b) ->
        comparator (discovered a') (discovered b')
        = comparator (discovered a) (discovered b))
  /\ ((8 <= length (sa_name a))%nat -> (8 <= length (sa_name b))%nat ->
      firstn 8 (sa_name a) = firstn 8 (sa_name b) ->
      comparator (discovered a) (discovered b) = Ok 0).
Proof.
  intros Ha Hb.
  assert (Hcmp : forall x y, fitsU32 x -> fitsU32 y ->
             comparator (discovered x) (discovered y)
             = Ok (compareData (firstn 8 (sa_name x)) (firstn 8 (sa_name y)))).
  { intros x y Hx Hy.
    rewrite comparator_long by apply discovered_hasLengthPrefix.
    now rewrite !discovered_sortKey. }
  split; [|split; [|split; [|split]]].
  - rewrite discovered_data, length_app, length_firstn.
    unfold u32le. cbn [length]. lia.
  - now apply Hcmp.
  - exists (compareData (firstn 8 (sa_name a)) (firstn 8 (sa_name b))).
    split; [now apply Hcmp|]. split; [|split].
    + unfold clippedNameLe. apply compareData_le_iff.
    + apply compareData_zero_iff.
    + intros [extra [Hext | Hext]]; rewrite Hext.
      * rewrite compareData_prefix, length_app. lia.
      * rewrite compareData_extension, length_app. lia.
  - intros a' b' Ha' Hb' Hsame_a Hsame_b.
    rewrite !Hcmp by assumption. now rewrite Hsame_a, Hsame_b.
  - intros _ _ Hprefix. rewrite Hcmp by assumption.
    now rewrite Hprefix, compareData_refl.
Qed.

Lemma comparator_sees_eight_bytes_witness :
  let later := Scenario.student "key-b" "aaaaaaaab" "second by name" in
  let earlier := Scenario.student "key-a" "aaaaaaaaa" "first by name" in
  comparator (discovered later) (discovered earlier) = Ok 0
  /\ exists v,
       comparator (discovered later) (discovered earlier) = Ok v
       /\ (v <= 0 <-> clippedNameLe later earlier).
Proof.
  intros later earlier.
  destruct (comparator_sees_eight_bytes later earlier)
    as (_ & _ & (v & Hv & Hle & _) & _ & Hzero).
  - unfold fitsU32. simpl. lia.
  - unfold fitsU32. simpl. lia.
  - split.
    + apply Hzero; [simpl; lia | simpl; lia | reflexivity].
    + exists v. split; [exact Hv | exact Hle].
Defined.

(** Below eight bytes the whole name decides: "Bob" sorts before "amy" by
    the first byte, and "Al" before "Alice" by the clipped lengths. *)
Example comparator_orders_short_names :
  comparator (discovered (Scenario.student "key-bob" "Bob" "hi"))
             (discovered (Scenario.student "key-amy" "amy" "hey")) = Ok (-1)
  /\ comparator (discovered (Scenario.student "key-amy" "amy" "hey"))
                (discovered (Scenario.student "key-bob" "Bob" "hi")) = Ok 1
  /\ comparator (discovered (Scenario.student "key-al" "Al" "hi"))
                (discovered (Scenario.student "key-alice" "Alice" "hello"))
     = Ok (-3).
Proof. repeat split; vm_compute; reflexivity. Qed.

(** Such accounts are cached in the order discovery returned them. *)
Example lookalikes_keep_discovery_order :
  accounts (stateOf (prefetchAccounts (Ledger.connection Scenario.lookalikes)
                       "" Scenario.empty))
  = ["key-b"; "key-a"]%string
  /\ accounts (stateOf (prefetchAccounts
                          (Ledger.connection (rev Scenario.lookalikes))
                          "" Scenario.empty))
     = ["key-a"; "key-b"]%string.
Proof. split; vm_compute; reflexivity. Qed.

(* ------------------------------------------------------------------ *)
(** ** The order of the cached index *)

Lemma StronglySorted_map_rel {A B} (f : A -> B) (R : B -> B -> Prop)
    (R' : A -> A -> Prop) (l : list A) :
  (forall a b, In a l -> In b l -> R (f a) (f b) -> R' a b) ->
  StronglySorted R (map f l) -> StronglySorted R' l.
Proof.
  induction l as [|x l IH]; intros Himp H; [constructor|].
  simpl in H. inversion H as [|? ? Hl Hx]; subst. constructor.
  - apply IH; [|assumption]. intros a b Ha Hb. apply Himp; now right.
  - rewrite Forall_map in Hx. rewrite Forall_forall in *.
    intros b Hb. apply Himp; [now left | now right | now apply Hx].
Qed.

(** A successful rebuild caches the discovered accounts, all of them, in
    ascending order of the keys read from their slices. *)
Lemma prefetchAccounts_sorted connection search st accts :
  getProgramAccounts connection STUDENT_INTRO_PROGRAM_ID (prefetchConfig search)
  = Ok accts ->
  resultOf (prefetchAccounts connection search st) = Ok tt ->
  exists sorted,
    Permutation accts sorted
    /\ StronglySorted keyLe sorted
    /\ accounts (stateOf (prefetchAccounts connection search st))
       = map pubkey sorted.
Proof.
  intros Hfound. rewrite prefetchAccounts_run, Hfound.
  destruct (sort comparator accts) as [sorted|e] eqn:Hsort; [|discriminate].
  intros _. exists sorted. split; [|split].
  - eapply sort_perm. exact Hsort.
  - apply Sorted_StronglySorted; [exact keyLe_trans|].
    eapply sort_sorted. exact Hsort.
  - reflexivity.
Qed.

Lemma prefetchAccounts_students_ok students search st :
  resultOf (prefetchAccounts (Ledger.connection (map onLedger students)) search st)
  = Ok tt.
Proof.
  rewrite prefetchAccounts_run. cbn [getProgramAccounts Ledger.connection].
  rewrite discover_students.
  destruct (sort_total (map discovered (matching search students))) as [r ->].
  - apply Forall_forall. intros a Ha. apply in_map_iff in Ha.
    destruct Ha as (s & <- & _). apply discovered_hasLengthPrefix.
  - reflexivity.
Qed.

(** C3 as stated fails: two students whose names differ only at the ninth
    byte compare equal under the callback, so they are cached in discovery
    order, here the greater name first. *)
Lemma sorted_by_full_name_counterexample :
  ~ (forall students search st,
        Forall fitsU32 students ->
        resultOf (prefetchAccounts (Ledger.connection (map onLedger students))
                    search st) = Ok tt ->
        exists sorted,
          Permutation (matching search students) sorted
          /\ StronglySorted nameLe sorted
          /\ accounts (stateOf (prefetchAccounts
                                  (Ledger.connection (map onLedger students))
                                  search st))
             = map sa_key sorted).
Proof.
  intros H.
  destruct (H Scenario.lookalikeStudents ""%string Scenario.empty)
    as (sorted & Hperm & Hsorted & Hindex).
  - repeat constructor.
  - apply prefetchAccounts_students_ok.
  - change (matching "" Scenario.lookalikeStudents)
      with Scenario.lookalikeStudents in Hperm.
    assert (Hkeys : map sa_key sorted = ["key-b"; "key-a"]%string)
      by (rewrite <- Hindex; vm_compute; reflexivity).
    destruct sorted as [|x [|y [|z sorted]]]; try discriminate Hkeys.
    injection Hkeys as Hx Hy.
    assert (Hxin : In x Scenario.lookalikeStudents)
      by (eapply Permutation_in; [symmetry; exact Hperm | now left]).
    assert (Hyin : In y Scenario.lookalikeStudents)
      by (eapply Permutation_in; [symmetry; exact Hperm | right; now left]).
    inversion Hsorted as [|? ? _ Hhead]; subst.
    inversion Hhead as [|? ? Hxy _]; subst.
    unfold nameLe in Hxy. apply compareData_le_iff in Hxy.
    destruct Hxin as [<- | [<- | []]]; try discriminate Hx;
      destruct Hyin as [<- | [<- | []]]; try discriminate Hy.
    vm_compute in Hxy. apply Hxy. reflexivity.
Qed.

(** C3, amended.  After every successful rebuild the cached index lists all
    discovered accounts in ascending order of the key the callback reads from
    the 12-byte slice, keys being compared byte by byte with a proper prefix
    sorting first.  For student accounts that key is the name cut to its
    first eight bytes, so the index is sorted by those bytes, and by the whole
    name when no name is longer than eight bytes.  In particular the names
    Bob, Alice, amy are cached in the order Alice, Bob, amy. *)
Theorem index_sorted_by_clipped_name :
  (forall connection search st accts,
      getProgramAccounts connection STUDENT_INTRO_PROGRAM_ID
        (prefetchConfig search) = Ok accts ->
      resultOf (prefetchAccounts connection search st) = Ok tt ->
      exists sorted,
        Permutation accts sorted
        /\ StronglySorted keyLe sorted
        /\ accounts (stateOf (prefetchAccounts connection search st))
           = map pubkey sorted)
  /\ (forall students search st,
        Forall fitsU32 students ->
        resultOf (prefetchAccounts (Ledger.connection (map onLedger students))
                    search st) = Ok tt
        /\ exists sorted,
             Permutation (matching search students) sorted
             /\ StronglySorted clippedNameLe sorted
             /\ accounts (stateOf (prefetchAccounts
                                     (Ledger.connection (map onLedger students))
                                     search st))
                = map sa_key sorted
             /\ (Forall (fun s => (length (sa_name s) <= 8)%nat) students ->
                 StronglySorted nameLe sorted))
  /\ accounts (stateOf (prefetchAccounts (Ledger.connection Scenario.classroom)
                          "" Scenario.empty))
     = ["key-alice"; "key-bob"; "key-amy"]%string.
Proof.
  split; [|split].
  - intros connection search st accts. apply prefetchAccounts_sorted.
  - intros students search st Hfits.
    pose proof (prefetchAccounts_students_ok students search st) as Hok.
    split; [exact Hok|].
    destruct (prefetchAccounts_sorted
                (Ledger.connection (map onLedger students)) search st
                (map discovered (matching search students)))
      as (sorted' & Hperm & Hsorted & Hindex).
    { cbn [getProgramAccounts Ledger.connection]. now rewrite discover_students. }
    { exact Hok. }
    apply Permutation_sym, Permutation_map_inv in Hperm.
    destruct Hperm as (sorted & -> & Hperm).
    assert (Hin : forall s, In s sorted -> In s students).
    { intros s Hs. apply (Permutation_in _ (Permutation_sym Hperm)) in Hs.
      unfold matching in Hs. now apply filter_In in Hs. }
    assert (Hclipped : StronglySorted clippedNameLe sorted).
    { eapply StronglySorted_map_rel; [|exact Hsorted].
      intros a b Ha Hb. unfold keyLe, clippedNameLe.
      rewrite Forall_forall in Hfits.
      rewrite !discovered_sortKey by auto. trivial. }
    exists sorted. split; [exact Hperm|]. split; [exact Hclipped|]. split.
    + rewrite Hindex, map_map. reflexivity.
    + intros Hshort. rewrite Forall_forall in Hshort.
      apply (StronglySorted_map_rel (fun s => s) clippedNameLe);
        [|now rewrite map_id].
      intros a b Ha Hb. unfold clippedNameLe, nameLe.
      now rewrite !firstn_all2 by auto.
  - vm_compute. reflexivity.
Qed.

Lemma index_sorted_by_clipped_name_witness :
  exists sorted,
    Permutation (matching "" Scenario.classroomStudents) sorted
    /\ StronglySorted clippedNameLe sorted
    /\ accounts (stateOf (prefetchAccounts
                            (Ledger.connection (map onLedger Scenario.classroomStudents))
                            "" Scenario.empty))
       = map sa_key sorted
    /\ (Forall (fun s => (length (sa_name s) <= 8)%nat) Scenario.classroomStudents ->
        StronglySorted nameLe sorted).
Proof.
  apply (proj1 (proj2 index_sorted_by_clipped_name)
           Scenario.classroomStudents ""%string Scenario.empty).
  repeat constructor.
Defined.

(* ================================================================== *)
(** * Further properties of the coordinator and of its caller *)

(* ------------------------------------------------------------------ *)
(** ** Pages as parts of the index *)

(** X1.  Whatever the arguments (zero and negative ones included), the page
    slice is a contiguous run of the cached index: the index is some keys,
    then the page, then some keys.  The slice never invents, repeats or
    reorders a key. *)
Theorem pageSlice_contiguous (index : list PublicKey) (page perPage : Z) :
  exists before after,
    index = before ++ pageSlice index page perPage ++ after.
Proof.
  unfold pageSlice, slice.
  set (k := Z.to_nat (relIndex (Z.of_nat (length index)) ((page - 1) * perPage))).
  set (n := Z.to_nat (relIndex (Z.of_nat (length index)) (page * perPage)
                      - relIndex (Z.of_nat (length index)) ((page - 1) * perPage))).
  exists (firstn k index), (skipn n (skipn k index)).
  now rewrite (firstn_skipn n), (firstn_skipn k).
Qed.

Lemma relIndex_step len x d :
  0 <= len -> 0 <= d -> relIndex len (x + d) - relIndex len x <= d.
Proof.
  intros Hlen Hd. unfold relIndex.
  destruct (x + d <? 0) eqn:He; [apply Z.ltb_lt in He | apply Z.ltb_ge in He];
    (destruct (x <? 0) eqn:Hs; [apply Z.ltb_lt in Hs | apply Z.ltb_ge in Hs]);
    lia.
Qed.

Lemma pageSlice_length_le (index : list PublicKey) (page perPage : Z) :
  0 <= perPage -> Z.of_nat (length (pageSlice index page perPage)) <= perPage.
Proof.
  intros Hs. unfold pageSlice. rewrite slice_length.
  replace (page * perPage) with ((page - 1) * perPage + perPage) by ring.
  pose proof (relIndex_step (Z.of_nat (length index)) ((page - 1) * perPage)
                perPage (Nat2Z.is_nonneg _) Hs).
  lia.
Qed.

Lemma firstn_plus {A} (l : list A) a : forall b,
  firstn (a + b) l = firstn a l ++ firstn b (skipn a l).
Proof.
  revert l. induction a as [|a IH]; intros l b.
  - reflexivity.
  - destruct l as [|x l]; simpl.
    + now rewrite firstn_nil.
    + now rewrite IH.
Qed.

(** X2.  For a page size of at least 1, the pages 1 to [n] laid end to end
    are the first [n * perPage] keys of the index: consecutive pages neither
    skip nor repeat a key, and together they are the whole index as soon as
    [n * perPage] reaches its length. *)
Theorem pages_tile_index (index : list PublicKey) (perPage : Z) (n : nat) :
  1 <= perPage ->
  pagesUpTo index perPage n = firstn (n * Z.to_nat perPage) index
  /\ ((length index <= n * Z.to_nat perPage)%nat ->
      pagesUpTo index perPage n = index).
Proof.
  intros Hs.
  assert (Htile : pagesUpTo index perPage n = firstn (n * Z.to_nat perPage) index).
  { unfold pagesUpTo. induction n as [|n IH].
    - reflexivity.
    - rewrite seq_S, flat_map_app, IH. cbn [flat_map]. rewrite app_nil_r.
      unfold pageSlice. rewrite slice_window by nia.
      replace (Z.to_nat (Z.of_nat (1 + n) * perPage - (Z.of_nat (1 + n) - 1) * perPage))
        with (Z.to_nat perPage) by nia.
      replace (Z.to_nat ((Z.of_nat (1 + n) - 1) * perPage))
        with (n * Z.to_nat perPage)%nat by nia.
      replace (S n * Z.to_nat perPage)%nat
        with (n * Z.to_nat perPage + Z.to_nat perPage)%nat by lia.
      now rewrite firstn_plus. }
  split; [exact Htile|].
  intros Hall. rewrite Htile. now apply firstn_all2.
Qed.

Lemma pages_tile_index_witness :
  pagesUpTo Scenario.sevenKeys 5 2 = Scenario.sevenKeys.
Proof.
  apply (pages_tile_index Scenario.sevenKeys 5 2).
  - lia.
  - simpl. lia.
Defined.

(* ------------------------------------------------------------------ *)
(** ** Network round trips of one [fetchPage] call *)

Section RoundTrips.
Variable deserialize : option (list byte) -> option StudentIntroReference.
Variable connection : Connection.

Lemma servePage_log index page perPage :
  fst (servePage deserialize connection index page perPage)
  = match pageSlice index page perPage with
    | [] => []
    | keys => [CallGetMultipleAccountsInfo keys]
    end.
Proof.
  unfold servePage. destruct (pageSlice index page perPage); reflexivity.
Qed.

Lemma servePage_result index page perPage :
  pageSlice index page perPage <> [] ->
  snd (servePage deserialize connection index page perPage)
  = match getMultipleAccountsInfo connection (pageSlice index page perPage) with
    | Ok infos => Ok (decodeAll deserialize infos)
    | Throw e => Throw e
    end.
Proof.
  unfold servePage. intros Hkeys.
  destruct (pageSlice index page perPage) as [|key keys]; [congruence|].
  simpl. destruct (getMultipleAccountsInfo connection (key :: keys));
    [now rewrite fold_collect | reflexivity].
Qed.

(** The state a call ends in: the one the rebuild step left. *)
Lemma fetchPage_state page perPage search reload st :
  stateOf (fetchPage deserialize connection page perPage search reload st)
  = if needsRebuild st reload
    then stateOf (prefetchAccounts connection search st)
    else st.
Proof.
  destruct (needsRebuild st reload) eqn:Hneeds.
  - destruct (result_unit_cases (resultOf (prefetchAccounts connection search st)))
      as [Hok | [e Hthrow]].
    + now rewrite fetchPage_rebuild_ok by assumption.
    + rewrite (fetchPage_rebuild_throw _ _ _ _ _ _ _ e) by assumption.
      symmetry. eapply prefetchAccounts_throw_state. exact Hthrow.
  - now rewrite fetchPage_cached by assumption.
Qed.

End RoundTrips.

(** X3.  One [fetchPage] call sends at most two requests, in a fixed order:
    the discovery request, present exactly when the cache is empty or
    [reload] is set, and after it at most one batch fetch, which asks for
    exactly the keys of the page slice and is sent only when the rebuild step
    did not throw and the slice is not empty. *)
Theorem fetchPage_requests
    (deserialize : option (list byte) -> option StudentIntroReference)
    (connection : Connection) (page perPage : Z) (search : string)
    (reload : bool) (st : Coordinator) :
  let run := fetchPage deserialize connection page perPage search reload st in
  let keys := pageSlice (accounts (stateOf run)) page perPage in
  exists batch,
    logOf run
    = (if needsRebuild st reload then [discoveryCall search] else []) ++ batch
    /\ (batch = []
        \/ (batch = [CallGetMultipleAccountsInfo keys] /\ keys <> []
            /\ (needsRebuild st reload = true ->
                resultOf (prefetchAccounts connection search st) = Ok tt)))
    /\ (length (logOf run) <= 2)%nat.
Proof.
  cbn zeta. rewrite fetchPage_state.
  destruct (needsRebuild st reload) eqn:Hneeds.
  - destruct (result_unit_cases (resultOf (prefetchAccounts connection search st)))
      as [Hok | [e Hthrow]].
    + rewrite fetchPage_rebuild_ok by assumption. cbn zeta.
      unfold logOf at 1 2. cbn [fst snd]. rewrite servePage_log.
      set (st1 := stateOf (prefetchAccounts connection search st)).
      destruct (pageSlice (accounts st1) page perPage) as [|key keys] eqn:Hkeys.
      * exists []. split; [reflexivity|]. split; [now left | simpl; lia].
      * exists [CallGetMultipleAccountsInfo (key :: keys)].
        split; [reflexivity|]. split; [|simpl; lia].
        right. split; [reflexivity|]. split; [discriminate | intros _; exact Hok].
    + rewrite (fetchPage_rebuild_throw _ _ _ _ _ _ _ e) by assumption.
      exists []. split; [reflexivity|]. split; [now left | simpl; lia].
  - rewrite fetchPage_cached by assumption.
    unfold logOf at 1 2. cbn [fst snd]. rewrite servePage_log.
    destruct (pageSlice (accounts st) page perPage) as [|key keys] eqn:Hkeys.
    + exists []. split; [reflexivity|]. split; [now left | simpl; lia].
    + exists [CallGetMultipleAccountsInfo (key :: keys)].
      split; [reflexivity|]. split; [|simpl; lia].
      right. split; [reflexivity|]. split; [discriminate | discriminate].
Qed.

(** X4.  When the batch fetch fails, [fetchPage] throws that error, and an
    index rebuilt earlier in the same call stays cached: the failure does not
    roll the rebuild back. *)
Theorem batch_failure_keeps_rebuilt_index
    (deserialize : option (list byte) -> option StudentIntroReference)
    (connection : Connection) (page perPage : Z) (search : string)
    (reload : bool) (st : Coordinator) (e : Exn) :
  let st1 := if needsRebuild st reload
             then stateOf (prefetchAccounts connection search st) else st in
  needsRebuild st reload = false
  \/ resultOf (prefetchAccounts connection search st) = Ok tt ->
  pageSlice (accounts st1) page perPage <> [] ->
  getMultipleAccountsInfo connection (pageSlice (accounts st1) page perPage)
  = Throw e ->
  resultOf (fetchPage deserialize connection page perPage search reload st)
  = Throw e
  /\ stateOf (fetchPage deserialize connection page perPage search reload st)
     = st1.
Proof.
  cbn zeta. intros Hreached Hkeys Hfail.
  rewrite fetchPage_state. split; [|reflexivity].
  destruct (needsRebuild st reload) eqn:Hneeds.
  - destruct Hreached as [Hfalse | Hok]; [discriminate|].
    rewrite fetchPage_rebuild_ok by assumption. cbn zeta.
    unfold resultOf at 1. cbn [snd].
    rewrite servePage_result by assumption. now rewrite Hfail.
  - rewrite fetchPage_cached by assumption.
    unfold resultOf at 1. cbn [snd].
    rewrite servePage_result by assumption. now rewrite Hfail.
Qed.

Lemma batch_failure_keeps_rebuilt_index_witness :
  let run := fetchPage Codec.deserialize
               (batchFails Scenario.classroom "node down") 1 5 "" true
               {| accounts := Scenario.sevenKeys |} in
  resultOf run = Throw (RpcFailure "node down")
  /\ accounts (stateOf run) = ["key-alice"; "key-bob"; "key-amy"]%string.
Proof.
  intros run.
  destruct (batch_failure_keeps_rebuilt_index Codec.deserialize
              (batchFails Scenario.classroom "node down") 1 5 "" true
              {| accounts := Scenario.sevenKeys |} (RpcFailure "node down"))
    as [Hthrows Hstate].
  - right. reflexivity.
  - discriminate.
  - reflexivity.
  - split; [exact Hthrows|]. unfold run. rewrite Hstate. reflexivity.
Defined.

(* ------------------------------------------------------------------ *)
(** ** Size of a served page *)

Lemma decodeAll_length deserialize infos :
  (length (decodeAll deserialize infos) <= length infos)%nat.
Proof.
  unfold decodeAll. induction infos as [|info infos IH]; simpl; [lia|].
  rewrite length_app.
  destruct (deserialize (option_map info_data info)); simpl; lia.
Qed.

(** X5.  Against a node that answers a batch fetch with one entry per
    requested key, a [fetchPage] call with a page size [perPage >= 0] returns
    at most [perPage] records, for every page number. *)
Theorem fetchPage_at_most_perPage
    (deserialize : option (list byte) -> option StudentIntroReference)
    (connection : Connection) (page perPage : Z) (search : string)
    (reload : bool) (st : Coordinator) (records : list StudentIntroReference) :
  answersEveryKey connection ->
  0 <= perPage ->
  resultOf (fetchPage deserialize connection page perPage search reload st)
  = Ok records ->
  Z.of_nat (length records) <= perPage.
Proof.
  intros Hnode Hsize.
  assert (Hserve : forall index,
             snd (servePage deserialize connection index page perPage) = Ok records ->
             Z.of_nat (length records) <= perPage).
  { intros index. unfold servePage.
    pose proof (pageSlice_length_le index page perPage Hsize) as Hkeys.
    destruct (pageSlice index page perPage) as [|key keys] eqn:Hslice.
    - simpl. intros H. inversion H. simpl. lia.
    - cbn [snd].
      destruct (getMultipleAccountsInfo connection (key :: keys)) as [infos|e] eqn:Hbatch;
        [|discriminate].
      intros H. inversion H. rewrite fold_collect. cbn [app].
      pose proof (decodeAll_length deserialize infos).
      pose proof (Hnode _ _ Hbatch). lia. }
  destruct (needsRebuild st reload) eqn:Hneeds.
  - destruct (result_unit_cases (resultOf (prefetchAccounts connection search st)))
      as [Hok | [e Hthrow]].
    + rewrite fetchPage_rebuild_ok by assumption. apply Hserve.
    + rewrite (fetchPage_rebuild_throw _ _ _ _ _ _ _ e) by assumption.
      discriminate.
  - rewrite fetchPage_cached by assumption. apply Hserve.
Qed.

Lemma ledger_answersEveryKey ledger : answersEveryKey (Ledger.connection ledger).
Proof.
  intros keys infos H. simpl in H. inversion H. apply length_map.
Qed.

Lemma fetchPage_at_most_perPage_witness :
  let stored key payload :=
    {| Ledger.address := key; Ledger.owner := STUDENT_INTRO_PROGRAM_ID;
       Ledger.contents := payload |} in
  let node := Ledger.connection
                [ stored "k0"%string Scenario.bytesOk;
                  stored "k1"%string Scenario.bytesCorrupt;
                  stored "k2"%string Scenario.bytesOk ] in
  let run := fetchPage Codec.deserialize node 1 2 "" false
               {| accounts := ["k0"; "k1"; "k2"]%string |} in
  resultOf run = Ok [Scenario.okRecord]
  /\ Z.of_nat (length [Scenario.okRecord]) <= 2.
Proof.
  intros stored node run.
  split; [reflexivity|].
  apply (fetchPage_at_most_perPage Codec.deserialize node 1 2 "" false
           {| accounts := ["k0"; "k1"; "k2"]%string |} [Scenario.okRecord]).
  - apply ledger_answersEveryKey.
  - lia.
  - reflexivity.
Defined.

(* ------------------------------------------------------------------ *)
(** ** An empty discovery answer *)

Lemma pageSlice_of_empty page perPage : pageSlice [] page perPage = [].
Proof.
  unfold pageSlice. apply slice_nil_iff. cbn [length].
  pose proof (relIndex_bounds (Z.of_nat 0) (page * perPage) ltac:(lia)).
  pose proof (relIndex_bounds (Z.of_nat 0) ((page - 1) * perPage) ltac:(lia)).
  lia.
Qed.

(** X6.  An empty discovery answer is not remembered.  When discovery finds
    no account, a [fetchPage] call that rebuilt returns the empty list
    without a batch fetch and leaves the cache empty, so the next call sends
    the discovery request again, with or without [reload]. *)
Theorem empty_discovery_is_not_cached
    (deserialize : option (list byte) -> option StudentIntroReference)
    (connection : Connection) (page perPage : Z) (search : string)
    (reload : bool) (st : Coordinator) :
  needsRebuild st reload = true ->
  getProgramAccounts connection STUDENT_INTRO_PROGRAM_ID (prefetchConfig search)
  = Ok [] ->
  let run := fetchPage deserialize connection page perPage search reload st in
  run = ({| accounts := [] |}, [discoveryCall search], Ok [])
  /\ forall page' perPage' search' reload',
       rebuildTriggered
         (logOf (fetchPage deserialize connection page' perPage' search' reload'
                   (stateOf run))) = true.
Proof.
  intros Hneeds Hnone. cbn zeta.
  assert (Hrun : prefetchAccounts connection search st
                 = ({| accounts := [] |}, [discoveryCall search], Ok tt)).
  { rewrite prefetchAccounts_run, Hnone. reflexivity. }
  assert (Hfetch : fetchPage deserialize connection page perPage search reload st
                   = ({| accounts := [] |}, [discoveryCall search], Ok [])).
  { rewrite fetchPage_rebuild_ok by (try assumption; now rewrite Hrun).
    cbn zeta. rewrite Hrun. unfold stateOf. cbn [fst snd accounts].
    unfold servePage. rewrite pageSlice_of_empty. reflexivity. }
  split; [exact Hfetch|].
  intros page' perPage' search' reload'. rewrite Hfetch.
  unfold stateOf. cbn [fst].
  assert (Hagain : needsRebuild {| accounts := [] |} reload' = true) by reflexivity.
  destruct (result_unit_cases
              (resultOf (prefetchAccounts connection search' {| accounts := [] |})))
    as [Hok | [e Hthrow]].
  - rewrite fetchPage_rebuild_ok by assumption. reflexivity.
  - rewrite (fetchPage_rebuild_throw _ _ _ _ _ _ _ e) by assumption. reflexivity.
Qed.

Lemma empty_discovery_is_not_cached_witness :
  rebuildTriggered
    (logOf (fetchPage Codec.deserialize (Ledger.connection []) 2 5 "" false
              (stateOf (fetchPage Codec.deserialize (Ledger.connection [])
                          1 5 "" false Scenario.empty)))) = true.
Proof.
  apply (empty_discovery_is_not_cached Codec.deserialize (Ledger.connection [])
           1 5 "" false Scenario.empty); reflexivity.
Defined.

(* ------------------------------------------------------------------ *)
(** ** The comparison as an order *)

Lemma bytesLe_antisym la lb : bytesLe la lb -> bytesLe lb la -> la = lb.
Proof.
  intros Hab Hba.
  apply compareData_le_iff in Hab, Hba.
  pose proof (compareData_sgn_flip la lb) as Hflip.
  apply compareData_zero_iff. lia.
Qed.

(** X7.  The hand-written comparison loop computes the lexicographic order
    of the two byte strings, as [Buffer.compare] would: its result is at most
    0 exactly when the first string precedes or equals the second (a proper
    prefix preceding its extensions), it is 0 exactly when the strings are
    equal, swapping the arguments flips its sign, and against an extension of
    itself a string yields minus the number of extra bytes. *)
Theorem compareData_lexicographic (dataA dataB extra : list byte) :
  (compareData dataA dataB <= 0 <-> bytesLe dataA dataB)
  /\ (compareData dataA dataB = 0 <-> dataA = dataB)
  /\ Z.sgn (compareData dataB dataA) = - Z.sgn (compareData dataA dataB)
  /\ compareData dataA (dataA ++ extra) = - Z.of_nat (length extra).
Proof.
  split; [apply compareData_le_iff|].
  split; [apply compareData_zero_iff|].
  split; [apply compareData_sgn_flip | apply compareData_prefix].
Qed.

(** X8.  The sort callback returns a value exactly when both slices hold the
    four bytes of the length prefix, and throws [RangeError] otherwise.  Where
    it returns it is a consistent comparison: an account compares equal to
    itself, swapping the arguments flips the sign, and "not after" is
    transitive. *)
Theorem comparator_consistent (a b c : ProgramAccount) :
  ((exists v, comparator a b = Ok v)
   <-> hasLengthPrefix a = true /\ hasLengthPrefix b = true)
  /\ (comparator a b = Throw RangeError
      <-> hasLengthPrefix a = false \/ hasLengthPrefix b = false)
  /\ (hasLengthPrefix a = true -> comparator a a = Ok 0)
  /\ (forall v, comparator a b = Ok v ->
        exists w, comparator b a = Ok w /\ Z.sgn w = - Z.sgn v)
  /\ (forall v w, comparator a b = Ok v -> comparator b c = Ok w ->
        v <= 0 -> w <= 0 -> exists u, comparator a c = Ok u /\ u <= 0).
Proof.
  assert (Hdef : forall x y v, comparator x y = Ok v ->
                   hasLengthPrefix x = true /\ hasLengthPrefix y = true).
  { intros x y v H.
    destruct (hasLengthPrefix x) eqn:Hx;
      [|rewrite comparator_short_l in H by assumption; discriminate].
    destruct (hasLengthPrefix y) eqn:Hy;
      [|rewrite comparator_short_r in H by assumption; discriminate].
    now split. }
  split; [|split; [|split; [|split]]].
  - split.
    + intros [v H]. eapply Hdef. exact H.
    + intros [Ha Hb]. eexists. now apply comparator_long.
  - split.
    + intros H.
      destruct (hasLengthPrefix a) eqn:Ha; [|now left].
      destruct (hasLengthPrefix b) eqn:Hb; [|now right].
      rewrite comparator_long in H by assumption. discriminate.
    + intros [Ha | Hb];
        [now apply comparator_short_l | now apply comparator_short_r].
  - intros Ha. rewrite comparator_long by assumption.
    now rewrite compareData_refl.
  - intros v H. destruct (Hdef _ _ _ H) as [Ha Hb].
    apply comparator_ok in H. subst v.
    eexists. split; [now apply comparator_long|].
    apply compareData_sgn_flip.
  - intros v w Hab Hbc Hv Hw.
    destruct (Hdef _ _ _ Hab) as [Ha _]. destruct (Hdef _ _ _ Hbc) as [_ Hc].
    apply comparator_ok in Hab, Hbc. subst v w.
    eexists. split; [now apply comparator_long|].
    apply compareData_le_iff.
    eapply bytesLe_trans; apply compareData_le_iff; eassumption.
Qed.

Lemma comparator_consistent_witness :
  let bob := {| pubkey := "key-bob"%string;
                data := [x03; x00; x00; x00; x42; x6f; x62] |} in
  let amy := {| pubkey := "key-amy"%string;
                data := [x03; x00; x00; x00; x61; x6d; x79] |} in
  comparator bob amy = Ok (-1)
  /\ exists w, comparator amy bob = Ok w /\ Z.sgn w = - Z.sgn (-1).
Proof.
  intros bob amy. split; [reflexivity|].
  apply (proj1 (proj2 (proj2 (proj2 (comparator_consistent bob amy bob))))).
  reflexivity.
Defined.

(* ------------------------------------------------------------------ *)
(** ** Ties and the order of discovery *)

Lemma sameKey_true k a : sameKey k a = true <-> sortKey (data a) = k.
Proof.
  unfold sameKey. destruct (list_eq_dec byte_eq_dec (sortKey (data a)) k);
    split; congruence.
Qed.

(** Insertion moves the new account past accounts with other keys only. *)
Lemma insert_keeps_ties k x l : forall r,
  insert comparator x l = Ok r ->
  filter (sameKey k) r = filter (sameKey k) (x :: l).
Proof.
  induction l as [|h t IH]; intros r H; simpl in H.
  - now inversion H.
  - destruct (comparator x h) as [c|] eqn:Hc; [simpl in H | discriminate].
    apply comparator_ok in Hc.
    destruct (Z.leb_spec c 0) as [Hle | Hgt].
    + now inversion H.
    + destruct (insert comparator x t) as [t'|]; [simpl in H | discriminate].
      inversion H. subst r. specialize (IH t' eq_refl).
      cbn [filter] in IH |- *.
      destruct (sameKey k x) eqn:Hx.
      * assert (Hh : sameKey k h = false).
        { destruct (sameKey k h) eqn:Hh; [|reflexivity].
          apply sameKey_true in Hx, Hh. rewrite Hx, Hh, compareData_refl in Hc.
          lia. }
        rewrite Hh. exact IH.
      * now rewrite IH.
Qed.

Lemma sort_keeps_ties k l : forall r,
  sort comparator l = Ok r ->
  filter (sameKey k) r = filter (sameKey k) l.
Proof.
  induction l as [|x rest IH]; intros r H; simpl in H.
  - now inversion H.
  - destruct (sort comparator rest) as [rest'|]; [simpl in H | discriminate].
    rewrite (insert_keeps_ties k x rest' r H). cbn [filter].
    now rewrite (IH rest' eq_refl).
Qed.

(** X9.  The sort is stable in what it caches: after a successful rebuild,
    the accounts whose slices yield one and the same key stand in the index
    in the order in which discovery returned them. *)
Theorem ties_keep_discovery_order
    (connection : Connection) (search : string) (st : Coordinator)
    (accts : list ProgramAccount) :
  getProgramAccounts connection STUDENT_INTRO_PROGRAM_ID (prefetchConfig search)
  = Ok accts ->
  resultOf (prefetchAccounts connection search st) = Ok tt ->
  exists sorted,
    accounts (stateOf (prefetchAccounts connection search st)) = map pubkey sorted
    /\ forall k, filter (sameKey k) sorted = filter (sameKey k) accts.
Proof.
  intros Hfound. rewrite prefetchAccounts_run, Hfound.
  destruct (sort comparator accts) as [sorted|e] eqn:Hsort; [|discriminate].
  intros _. exists sorted. split; [reflexivity|].
  intros k. now apply sort_keeps_ties.
Qed.

Lemma ties_keep_discovery_order_witness :
  exists sorted,
    accounts (stateOf (prefetchAccounts (Ledger.connection Scenario.lookalikes)
                         "" Scenario.empty)) = map pubkey sorted
    /\ forall k,
         filter (sameKey k) sorted
         = filter (sameKey k)
             (Ledger.discover Scenario.lookalikes STUDENT_INTRO_PROGRAM_ID
                (prefetchConfig "")).
Proof.
  apply (ties_keep_discovery_order (Ledger.connection Scenario.lookalikes) ""
           Scenario.empty); reflexivity.
Defined.

(** Two key-sorted arrangements of the same accounts coincide when no two
    accounts share a key. *)
Lemma sorted_arrangement_unique l1 : forall l2,
  StronglySorted keyLe l1 -> StronglySorted keyLe l2 ->
  Permutation l1 l2 ->
  NoDup (map (fun a => sortKey (data a)) l1) ->
  l1 = l2.
Proof.
  induction l1 as [|a l1 IH]; intros l2 Hs1 Hs2 Hperm Hnodup.
  - apply Permutation_nil in Hperm. now subst.
  - destruct l2 as [|b l2];
      [apply Permutation_sym, Permutation_nil in Hperm; discriminate|].
    inversion Hs1 as [|? ? Hs1' Ha]; subst.
    inversion Hs2 as [|? ? Hs2' Hb]; subst.
    inversion Hnodup as [|? ? Hfresh Hnodup']; subst.
    assert (Hab : a = b).
    { pose proof (Permutation_in a Hperm (or_introl eq_refl)) as Hina.
      pose proof (Permutation_in b (Permutation_sym Hperm) (or_introl eq_refl))
        as Hinb.
      destruct Hina as [Heq | Hina]; [now symmetry|].
      destruct Hinb as [Heq | Hinb]; [assumption|].
      exfalso. apply Hfresh.
      rewrite Forall_forall in Ha, Hb.
      assert (Hkey : sortKey (data a) = sortKey (data b))
        by (apply bytesLe_antisym; [apply Ha | apply Hb]; assumption).
      rewrite Hkey. apply in_map_iff. now exists b. }
    subst b. f_equal.
    apply IH; try assumption.
    eapply Permutation_cons_inv. exact Hperm.
Qed.

(** X10.  When no two discovered accounts yield the same key, the cached
    index depends only on which accounts were discovered, not on the order in
    which the node returned them. *)
Theorem index_independent_of_discovery_order
    (connection1 connection2 : Connection) (search : string)
    (st1 st2 : Coordinator) (accts1 accts2 : list ProgramAccount) :
  getProgramAccounts connection1 STUDENT_INTRO_PROGRAM_ID (prefetchConfig search)
  = Ok accts1 ->
  getProgramAccounts connection2 STUDENT_INTRO_PROGRAM_ID (prefetchConfig search)
  = Ok accts2 ->
  Permutation accts1 accts2 ->
  NoDup (map (fun a => sortKey (data a)) accts1) ->
  resultOf (prefetchAccounts connection1 search st1) = Ok tt ->
  resultOf (prefetchAccounts connection2 search st2) = Ok tt ->
  accounts (stateOf (prefetchAccounts connection1 search st1))
  = accounts (stateOf (prefetchAccounts connection2 search st2)).
Proof.
  intros Hfound1 Hfound2 Hperm Hnodup Hok1 Hok2.
  destruct (prefetchAccounts_sorted _ _ _ _ Hfound1 Hok1)
    as (sorted1 & Hperm1 & Hsorted1 & ->).
  destruct (prefetchAccounts_sorted _ _ _ _ Hfound2 Hok2)
    as (sorted2 & Hperm2 & Hsorted2 & ->).
  f_equal. apply sorted_arrangement_unique; try assumption.
  - rewrite <- Hperm1, Hperm. exact Hperm2.
  - eapply Permutation_NoDup; [|exact Hnodup].
    apply Permutation_map. exact Hperm1.
Qed.

Lemma index_independent_of_discovery_order_witness :
  accounts (stateOf (prefetchAccounts (Ledger.connection Scenario.classroom)
                       "" Scenario.empty))
  = accounts (stateOf (prefetchAccounts
                         (Ledger.connection (rev Scenario.classroom))
                         "" {| accounts := Scenario.sevenKeys |})).
Proof.
  apply (index_independent_of_discovery_order
           (Ledger.connection Scenario.classroom)
           (Ledger.connection (rev Scenario.classroom)) ""
           Scenario.empty {| accounts := Scenario.sevenKeys |}
           (Ledger.discover Scenario.classroom STUDENT_INTRO_PROGRAM_ID
              (prefetchConfig ""))
           (Ledger.discover (rev Scenario.classroom) STUDENT_INTRO_PROGRAM_ID
              (prefetchConfig ""))).
  - reflexivity.
  - reflexivity.
  - change (Permutation
              (Ledger.discover Scenario.classroom STUDENT_INTRO_PROGRAM_ID
                 (prefetchConfig ""))
              (rev (Ledger.discover Scenario.classroom STUDENT_INTRO_PROGRAM_ID
                      (prefetchConfig "")))).
    apply Permutation_rev.
  - vm_compute. repeat constructor; simpl; intuition discriminate.
  - reflexivity.
  - reflexivity.
Defined.

(* ------------------------------------------------------------------ *)
(** ** What the server-side filter selects *)

Lemma memcmp_on_student s bs :
  Ledger.memcmpMatches (Ledger.contents (onLedger s))
    {| offset := 5; bytes := bs |} = true
  <-> startsWith bs (sa_name s ++ sa_rest s).
Proof.
  unfold Ledger.memcmpMatches, startsWith. cbn [offset bytes].
  change (skipn (Z.to_nat 5) (Ledger.contents (onLedger s)))
    with (sa_name s ++ sa_rest s).
  destruct (list_eq_dec byte_eq_dec
              (firstn (length bs) (sa_name s ++ sa_rest s)) bs);
    split; congruence.
Qed.

Lemma matching_iff students search s :
  In s (matching search students)
  <-> In s students
      /\ startsWith (list_byte_of_string search) (sa_name s ++ sa_rest s).
Proof.
  unfold matching. rewrite filter_In. unfold prefetchConfig. cbn [filters].
  destruct (String.eqb_spec search "") as [-> | Hne].
  - cbn [forallb]. split; intros [Hin _]; (split; [exact Hin | reflexivity]).
  - cbn [forallb]. rewrite andb_true_r, memcmp_on_student. reflexivity.
Qed.

(** X11.  Served by a node that applies [memcmp] filters as the RPC
    documents, a rebuild with filter [search] caches exactly the student
    accounts whose bytes from offset 5 on (the name, followed by the rest of
    the account) start with the bytes of [search].  For a search no longer
    than the name this is "the name starts with [search]", byte for byte,
    hence case-sensitive; the empty search selects every account. *)
Theorem filter_selects_name_prefix
    (students : list StudentAccount) (search : string) (st : Coordinator)
    (s : StudentAccount) :
  let wanted := list_byte_of_string search in
  (In s (matching search students)
   <-> In s students /\ startsWith wanted (sa_name s ++ sa_rest s))
  /\ ((length wanted <= length (sa_name s))%nat ->
      (startsWith wanted (sa_name s ++ sa_rest s)
       <-> startsWith wanted (sa_name s)))
  /\ matching "" students = students
  /\ Permutation
       (map sa_key (matching search students))
       (accounts (stateOf (prefetchAccounts
                             (Ledger.connection (map onLedger students))
                             search st))).
Proof.
  cbn zeta. split; [apply matching_iff|]. split; [|split].
  - intros Hshort. unfold startsWith.
    rewrite firstn_app.
    replace (length (list_byte_of_string search) - length (sa_name s))%nat
      with 0%nat by lia.
    now rewrite firstn_O, app_nil_r.
  - unfold matching. cbn [prefetchConfig filters String.eqb forallb].
    induction students as [|x students IH]; [reflexivity|].
    cbn [filter]. now rewrite IH.
  - destruct (prefetchAccounts_sorted
                (Ledger.connection (map onLedger students)) search st
                (map discovered (matching search students)))
      as (sorted & Hperm & _ & ->).
    + cbn [getProgramAccounts Ledger.connection]. now rewrite discover_students.
    + apply prefetchAccounts_students_ok.
    + apply (Permutation_map pubkey) in Hperm.
      rewrite map_map in Hperm. exact Hperm.
Qed.

Lemma filter_selects_name_prefix_witness :
  let amy := Scenario.student "key-amy" "amy" "hey" in
  startsWith (list_byte_of_string "a") (sa_name amy ++ sa_rest amy)
  <-> startsWith (list_byte_of_string "a") (sa_name amy).
Proof.
  intros amy.
  apply (filter_selects_name_prefix Scenario.classroomStudents "a"
           Scenario.empty amy).
  simpl. lia.
Defined.

(** The filter can select an account whose name does not start with the
    search text and is shorter than it: the comparison then runs on into the
    length prefix of the next field.  Here the name is "Al", the account
    continues with the length 5 of its message, and the search text is "Al"
    followed by the byte 5. *)
Example filter_reads_past_the_name :
  let short := {| sa_key := "key-al"%string; sa_flag := x01;
                  sa_name := [x41; x6c];
                  sa_rest := encodeField (list_byte_of_string "hello") |} in
  let search := string_of_list_byte [x41; x6c; x05] in
  matching search [short] = [short]
  /\ ~ startsWith (list_byte_of_string search) (sa_name short).
Proof.
  intros short search. split.
  - vm_compute. reflexivity.
  - vm_compute. discriminate.
Qed.

(* ------------------------------------------------------------------ *)
(** ** The page component *)




(** After Next, a submission made with the form as it was filled in on page
    1 leaves the component on page 2; once the form has changed on page 2, a
    submission goes back to page 1. *)
Example submission_can_stay_on_page_two :
  StudentIntrosPage.page
    (StudentIntrosPage.run
       [ StudentIntrosPage.FormChanged;
         StudentIntrosPage.SetStudentIntros 5;
         StudentIntrosPage.ClickNext;
         StudentIntrosPage.Submitted ]) = 2
  /\ StudentIntrosPage.page
       (StudentIntrosPage.run
          [ StudentIntrosPage.SetStudentIntros 5;
            StudentIntrosPage.ClickNext;
            StudentIntrosPage.FormChanged;
            StudentIntrosPage.Submitted ]) = 1.
Proof. split; reflexivity. Qed.

(** X13.  The effect of the page component passes [reload = (search !== '')].
    So a load sends the discovery request exactly when the cache is empty or
    the search box is not empty; with a non-empty search every load that
    returns records has just rebuilt the index for that very search; and with
    an empty search and a non-empty cache the load leaves the cache as it is
    and serves from it, whatever search that cache was built for. *)
Theorem loadIntros_reload_policy
    (deserialize : option (list byte) -> option StudentIntroReference)
    (connection : Connection) (page : Z) (search : string) (st : Coordinator) :
  let run := StudentIntrosPage.loadIntros deserialize connection page search st in
  rebuildTriggered (logOf run)
  = (Nat.eqb (length (accounts st)) 0 || negb (String.eqb search ""))%bool
  /\ (search <> ""%string ->
      forall records, resultOf run = Ok records ->
        builtWith connection search (stateOf run))
  /\ (search = ""%string -> accounts st <> [] ->
      stateOf run = st
      /\ run = (st, fst (servePage deserialize connection (accounts st) page 5),
                    snd (servePage deserialize connection (accounts st) page 5))).
Proof.
  cbn zeta. unfold StudentIntrosPage.loadIntros.
  set (reload := negb (String.eqb search "")).
  fold (needsRebuild st reload).
  split; [|split].
  - destruct (needsRebuild st reload) eqn:Hneeds.
    + destruct (result_unit_cases (resultOf (prefetchAccounts connection search st)))
        as [Hok | [e Hthrow]].
      * now rewrite fetchPage_rebuild_ok by assumption.
      * now rewrite (fetchPage_rebuild_throw _ _ _ _ _ _ _ e) by assumption.
    + rewrite fetchPage_cached by assumption. apply servePage_no_discovery.
  - intros Hsearch records Hrecords.
    assert (Hneeds : needsRebuild st reload = true).
    { unfold needsRebuild, reload.
      destruct (String.eqb_spec search ""); [contradiction|].
      apply orb_true_r. }
    destruct (result_unit_cases (resultOf (prefetchAccounts connection search st)))
      as [Hok | [e Hthrow]].
    + exists st. rewrite fetchPage_state, Hneeds. split; [reflexivity | exact Hok].
    + rewrite (fetchPage_rebuild_throw _ _ _ _ _ _ _ e) in Hrecords by assumption.
      discriminate.
  - intros Hsearch Hcached.
    assert (Hneeds : needsRebuild st reload = false).
    { unfold needsRebuild, reload. subst search. cbn.
      destruct (accounts st); [contradiction | reflexivity]. }
    rewrite fetchPage_cached by assumption. split; reflexivity.
Qed.

Lemma loadIntros_reload_policy_witness :
  let node := Ledger.connection Scenario.classroom in
  let filtered := StudentIntrosPage.loadIntros Codec.deserialize node 1 "Bob"
                    Scenario.empty in
  let cleared := StudentIntrosPage.loadIntros Codec.deserialize node 1 ""
                   (stateOf filtered) in
  builtWith node "Bob" (stateOf filtered)
  /\ accounts (stateOf cleared) = ["key-bob"%string].
Proof.
  intros node filtered cleared. split.
  - apply (proj1 (proj2 (loadIntros_reload_policy Codec.deserialize node 1 "Bob"
                           Scenario.empty)) ltac:(discriminate) []).
    reflexivity.
  - destruct (proj2 (proj2 (loadIntros_reload_policy Codec.deserialize node 1 ""
                              (stateOf filtered))) eq_refl) as [Hsame _].
    + discriminate.
    + unfold cleared. rewrite Hsame. reflexivity.
Defined.

Lemma decodeAll_drops deserialize infos info :
  In info infos ->
  deserialize (option_map info_data info) = None ->
  (length (decodeAll deserialize infos) < length infos)%nat.
Proof.
  unfold decodeAll. induction infos as [|x infos IH]; intros Hin Hnone;
    [contradiction|].
  cbn [flat_map length]. rewrite length_app.
  pose proof (decodeAll_length deserialize infos) as Hrest.
  unfold decodeAll in Hrest.
  destruct Hin as [-> | Hin].
  - rewrite Hnone. cbn [length]. lia.
  - specialize (IH Hin Hnone).
    destruct (deserialize (option_map info_data x)); cbn [length]; lia.
Qed.

(** X14.  A record that does not decode ends the pagination early.  Against
    a node that answers one entry per key, when some entry of the batch
    answer of a load is absent or undecodable, the load returns fewer than
    five records, and once the component has stored them its Next button is
    disabled, however many further pages the index holds. *)
Theorem undecodable_record_disables_next
    (deserialize : option (list byte) -> option StudentIntroReference)
    (connection : Connection) (page : Z) (search : string) (st : Coordinator)
    (records : list StudentIntroReference)
    (infos : list (option AccountInfo)) (info : option AccountInfo)
    (v : StudentIntrosPage.View) :
  let run := StudentIntrosPage.loadIntros deserialize connection page search st in
  answersEveryKey connection ->
  resultOf run = Ok records ->
  getMultipleAccountsInfo connection (pageSlice (accounts (stateOf run)) page 5)
  = Ok infos ->
  In info infos ->
  deserialize (option_map info_data info) = None ->
  (length records < 5)%nat
  /\ StudentIntrosPage.nextDisabled
       (StudentIntrosPage.step v
          (StudentIntrosPage.SetStudentIntros (length records))) = true.
Proof.
  cbn zeta. unfold StudentIntrosPage.loadIntros.
  set (reload := negb (String.eqb search "")).
  intros Hnode Hrecords Hbatch Hin Hnone.
  set (keys := pageSlice
                 (accounts (stateOf (fetchPage deserialize connection page 5
                                       search reload st))) page 5) in *.
  assert (Hsame : length infos = length keys) by (eapply Hnode; exact Hbatch).
  assert (Hkeys : keys <> []).
  { intros Hnil. rewrite Hnil in Hsame. destruct infos; [contradiction | discriminate]. }
  assert (Hfive : Z.of_nat (length keys) <= 5)
    by (apply pageSlice_length_le; lia).
  assert (Hserved : records = decodeAll deserialize infos).
  { unfold keys in Hbatch, Hkeys. rewrite fetchPage_state in Hbatch, Hkeys.
    destruct (needsRebuild st reload) eqn:Hneeds.
    - destruct (result_unit_cases (resultOf (prefetchAccounts connection search st)))
        as [Hok | [e Hthrow]].
      + rewrite fetchPage_rebuild_ok in Hrecords by assumption. cbn zeta in Hrecords.
        unfold resultOf in Hrecords at 1. cbn [snd] in Hrecords.
        rewrite servePage_result, Hbatch in Hrecords by assumption. congruence.
      + rewrite (fetchPage_rebuild_throw _ _ _ _ _ _ _ e) in Hrecords by assumption.
        discriminate.
    - rewrite fetchPage_cached in Hrecords by assumption.
      unfold resultOf in Hrecords at 1. cbn [snd] in Hrecords.
      rewrite servePage_result, Hbatch in Hrecords by assumption. congruence. }
  pose proof (decodeAll_drops deserialize infos info Hin Hnone) as Hdrop.
  assert (Hfew : (length records < 5)%nat) by (rewrite Hserved; lia).
  split; [exact Hfew|].
  unfold StudentIntrosPage.nextDisabled, StudentIntrosPage.step.
  cbn [StudentIntrosPage.shown StudentIntrosPage.isLoading].
  apply Nat.ltb_lt in Hfew. now rewrite Hfew.
Qed.

Lemma undecodable_record_disables_next_witness :
  let stored key payload :=
    {| Ledger.address := key; Ledger.owner := STUDENT_INTRO_PROGRAM_ID;
       Ledger.contents := payload |} in
  let node := Ledger.connection
                [ stored "k0"%string Scenario.bytesOk;
                  stored "k1"%string Scenario.bytesOk;
                  stored "k2"%string Scenario.bytesCorrupt;
                  stored "k3"%string Scenario.bytesOk;
                  stored "k4"%string Scenario.bytesOk;
                  stored "k5"%string Scenario.bytesOk;
                  stored "k6"%string Scenario.bytesOk ] in
  StudentIntrosPage.nextDisabled
    (StudentIntrosPage.step StudentIntrosPage.initial
       (StudentIntrosPage.SetStudentIntros
          (length [Scenario.okRecord; Scenario.okRecord;
                   Scenario.okRecord; Scenario.okRecord]))) = true.
Proof.
  intros stored node.
  apply (undecodable_record_disables_next Codec.deserialize node 1 ""
           {| accounts := Scenario.sevenKeys |}
           [Scenario.okRecord; Scenario.okRecord;
            Scenario.okRecord; Scenario.okRecord]
           (map (Ledger.lookup
                   [ stored "k0"%string Scenario.bytesOk;
                     stored "k1"%string Scenario.bytesOk;
                     stored "k2"%string Scenario.bytesCorrupt;
                     stored "k3"%string Scenario.bytesOk;
                     stored "k4"%string Scenario.bytesOk;
                     stored "k5"%string Scenario.bytesOk;
                     stored "k6"%string Scenario.bytesOk ])
                ["k0"; "k1"; "k2"; "k3"; "k4"]%string)
           (Some {| info_data := Scenario.bytesCorrupt |})
           StudentIntrosPage.initial).
  - apply ledger_answersEveryKey.
  - reflexivity.
  - reflexivity.
  - vm_compute. right. right. left. reflexivity.
  - reflexivity.
Defined.
